(** * A code-search pipeline over an embedding service and a vector store

    Shallow embedding of the indexing and query script: [readCodeFiles],
    [generateEmbeddings], [storeCodeInVectorDB], [searchCode] and [main],
    and of the two sample files it indexes, [factorial] and [quickSort].

    JavaScript strings are sequences of UTF-16 code units, JSON values are an
    inductive type, and the three collaborators of the script (file system,
    embedding endpoint, vector store) are oracles carried by the [world]
    the script runs in.  Exceptions and promise rejections are the [Throw]
    outcome of a state-and-exception monad; state changes made before a
    throw persist, as they do in the script. *)

From Stdlib Require Import String Ascii DecimalString DecimalN DecimalPos.
From Stdlib Require Import NArith ZArith QArith Bool Lia List.
From Stdlib Require Import Sorted Permutation.
From Equations Require Import Equations.
Import ListNotations.
Local Close Scope Q_scope.
Local Open Scope list_scope.

Set Implicit Arguments.
Set Warnings "-register-all".

(** ** Strings *)

(** A string is the list of its UTF-16 code units. *)
Definition jsstring := list N.

(** String literals of the script (all of them ASCII). *)
Definition js (s : string) : jsstring := map N_of_ascii (list_ascii_of_string s).

Definition jsstring_eqb (a b : jsstring) : bool :=
  if list_eq_dec N.eq_dec a b then true else false.

(** Decimal rendering of a non-negative integer, as in a template literal. *)
Definition decimal (n : N) : jsstring := js (NilZero.string_of_uint (N.to_uint n)).

Definition length_N {A} (l : list A) : N := N.of_nat (length l).

(** [WhiteSpace] and [LineTerminator] code points, the ones
    [String.prototype.trim] strips. *)
Definition is_js_whitespace (c : N) : bool :=
  existsb (N.eqb c)
    [9; 10; 11; 12; 13; 32; 160; 5760; 8232; 8233; 8239; 8287; 12288; 65279]%N
  || ((8192 <=? c) && (c <=? 8202))%N.

Fixpoint trimStart (s : jsstring) : jsstring :=
  match s with
  | c :: s' => if is_js_whitespace c then trimStart s' else s
  | [] => []
  end.

Definition trimEnd (s : jsstring) : jsstring := rev (trimStart (rev s)).

(** [s.trim()] *)
Definition trim (s : jsstring) : jsstring := trimEnd (trimStart s).

(** [s.split('\n')]: always at least one piece. *)
Fixpoint split_newline (s : jsstring) : list jsstring :=
  match s with
  | [] => [[]]
  | c :: s' =>
      if (c =? 10)%N then [] :: split_newline s'
      else match split_newline s' with
           | l :: ls => (c :: l) :: ls
           | [] => [[c]]
           end
  end.

Fixpoint startsWith (s p : jsstring) : bool :=
  match p, s with
  | [], _ => true
  | a :: p', b :: s' => (a =? b)%N && startsWith s' p'
  | _ :: _, [] => false
  end.

(** [s.endsWith(suffix)] *)
Definition endsWith (s suffix : jsstring) : bool := startsWith (rev s) (rev suffix).

(** [arr.map((x, index) => f x index)] *)
Fixpoint mapi_from {A B} (f : A -> nat -> B) (start : nat) (l : list A) : list B :=
  match l with
  | [] => []
  | x :: l' => f x start :: mapi_from f (S start) l'
  end.

Definition mapi {A B} (f : A -> nat -> B) (l : list A) : list B := mapi_from f 0 l.

(** ** Values *)

Inductive jsval : Type :=
| JUndefined
| JNull
| JBool (b : bool)
| JNum (q : Q)
| JStr (s : jsstring)
| JArr (elems : list jsval)
| JObj (fields : list (jsstring * jsval)).

(** What can be thrown or be the reason of a rejected promise. *)
Inductive exn : Type :=
| Error (message : jsstring)      (* [new Error(message)], built by the script *)
| TypeError (message : jsstring)  (* raised by the engine on a bad access *)
| RangeError (message : jsstring) (* raised by the engine out of stack space *)
| External (reason : jsstring).   (* rejection coming from a collaborator *)

Inductive outcome (A : Type) : Type :=
| Return (a : A)
| Throw (e : exn).
Arguments Return {A} a.
Arguments Throw {A} e.

Definition num_of_N (n : N) : jsval := JNum (inject_Z (Z.of_N n)).

Definition isArray (v : jsval) : bool :=
  match v with JArr _ => true | _ => false end.

Fixpoint lookup_field (name : jsstring) (fields : list (jsstring * jsval)) : jsval :=
  match fields with
  | [] => JUndefined
  | (k, v) :: rest => if jsstring_eqb k name then v else lookup_field name rest
  end.

(** [v[i]] for a literal index [i]. *)
Definition get_index (v : jsval) (i : nat) : outcome jsval :=
  match v with
  | JUndefined => Throw (TypeError (js "Cannot read properties of undefined"))
  | JNull => Throw (TypeError (js "Cannot read properties of null"))
  | JArr elems => Return (nth i elems JUndefined)
  | JStr s => Return (match nth_error s i with Some c => JStr [c] | None => JUndefined end)
  | JObj fields => Return (lookup_field (decimal (N.of_nat i)) fields)
  | JBool _ | JNum _ => Return JUndefined
  end.

(** [v.name] for a property name that is not an index. *)
Definition get_prop (v : jsval) (name : jsstring) : outcome jsval :=
  match v with
  | JUndefined => Throw (TypeError (js "Cannot read properties of undefined"))
  | JNull => Throw (TypeError (js "Cannot read properties of null"))
  | JObj fields => Return (lookup_field name fields)
  | JArr elems =>
      Return (if jsstring_eqb name (js "length") then num_of_N (length_N elems) else JUndefined)
  | JStr s =>
      Return (if jsstring_eqb name (js "length") then num_of_N (length_N s) else JUndefined)
  | JBool _ | JNum _ => Return JUndefined
  end.

(** [v?.length] *)
Definition optional_length (v : jsval) : jsval :=
  match v with
  | JUndefined | JNull => JUndefined
  | _ => match get_prop v (js "length") with Return x => x | Throw _ => JUndefined end
  end.

(** [arr[i]] on an array held as a list. *)
Definition array_get (arr : list jsval) (i : nat) : jsval := nth i arr JUndefined.

(** ** The world of a run *)

(** A [LineRecord]: one non-blank line of an indexed file. *)
Record LineRecord : Type := {
  content : jsstring;
  file : jsstring;
  lineNumber : N
}.

(** The metadata object stored with a line. *)
Record Metadata : Type := {
  meta_file : jsstring;
  meta_lineNumber : N
}.

(** A [Match] as [searchCode] builds it: four properties read off the
    store's response, whatever they hold. *)
Record Match : Type := {
  match_file : jsval;
  match_lineNumber : jsval;
  match_content : jsval;
  match_distance : jsval
}.

(** A [fetch] call.  The body is kept as the value handed to
    [JSON.stringify]. *)
Record request : Type := {
  req_url : jsstring;
  req_method : jsstring;
  req_headers : list (jsstring * jsstring);
  req_body : jsval
}.

(** What the embedding endpoint does with a request: the connection fails,
    or a response arrives with a status and a body that [response.json()]
    parses or rejects. *)
Inductive http_outcome : Type :=
| NetworkFailure (e : exn)
| Response (status : N) (payload : outcome jsval).

(** Calls made on the vector store client and its collections. *)
Inductive chroma_call : Type :=
| GetOrCreateCollection (name : jsstring)
| GetCollection (name : jsstring)
| Add (collection : jsstring) (ids : list jsstring) (embeddings : list jsval)
      (metadatas : list Metadata) (documents : list jsstring)
| Query (collection : jsstring) (queryEmbeddings : list jsval) (nResults : N).

(** One argument of a [console.log] or [console.error] call; template
    literals are kept as their pieces. *)
Inductive log_piece : Type :=
| PStr (s : jsstring)
| PVal (v : jsval)
| PFixed (x : Q) (digits : N)     (* [x.toFixed(digits)] *)
| PErr (e : exn).

Record world : Type := {
  (* collaborators *)
  fs_readdir : jsstring -> outcome (list jsstring);
  fs_readFile : jsstring -> outcome jsstring;
  http_server : nat -> request -> http_outcome;      (* answer to the k-th request *)
  chroma_fault : nat -> option exn;                  (* failure of the k-th store call *)
  chroma_answer : list chroma_call -> jsstring -> list jsval -> N -> jsval;
  (* the engine: the most arguments one call can be given *)
  max_arguments : N;
  (* what the run has done so far *)
  requests : list request;
  collections : list jsstring;                       (* collections that exist *)
  chroma_calls : list chroma_call;
  stdout : list (list log_piece);
  stderr : list (list log_piece);
  raised : list exn                                  (* every error raised, in order *)
}.

Definition with_requests (w : world) (r : list request) : world :=
  {| fs_readdir := fs_readdir w; fs_readFile := fs_readFile w;
     http_server := http_server w; chroma_fault := chroma_fault w;
     chroma_answer := chroma_answer w; max_arguments := max_arguments w;
     requests := r; collections := collections w; chroma_calls := chroma_calls w;
     stdout := stdout w; stderr := stderr w; raised := raised w |}.

Definition with_store (w : world) (cs : list jsstring) (calls : list chroma_call) : world :=
  {| fs_readdir := fs_readdir w; fs_readFile := fs_readFile w;
     http_server := http_server w; chroma_fault := chroma_fault w;
     chroma_answer := chroma_answer w; max_arguments := max_arguments w;
     requests := requests w; collections := cs; chroma_calls := calls;
     stdout := stdout w; stderr := stderr w; raised := raised w |}.

Definition with_stdout (w : world) (o : list (list log_piece)) : world :=
  {| fs_readdir := fs_readdir w; fs_readFile := fs_readFile w;
     http_server := http_server w; chroma_fault := chroma_fault w;
     chroma_answer := chroma_answer w; max_arguments := max_arguments w;
     requests := requests w; collections := collections w; chroma_calls := chroma_calls w;
     stdout := o; stderr := stderr w; raised := raised w |}.

Definition with_stderr (w : world) (e : list (list log_piece)) : world :=
  {| fs_readdir := fs_readdir w; fs_readFile := fs_readFile w;
     http_server := http_server w; chroma_fault := chroma_fault w;
     chroma_answer := chroma_answer w; max_arguments := max_arguments w;
     requests := requests w; collections := collections w; chroma_calls := chroma_calls w;
     stdout := stdout w; stderr := e; raised := raised w |}.

Definition with_raised (w : world) (r : list exn) : world :=
  {| fs_readdir := fs_readdir w; fs_readFile := fs_readFile w;
     http_server := http_server w; chroma_fault := chroma_fault w;
     chroma_answer := chroma_answer w; max_arguments := max_arguments w;
     requests := requests w; collections := collections w; chroma_calls := chroma_calls w;
     stdout := stdout w; stderr := stderr w; raised := r |}.

(** ** The monad of the script *)

Definition M (A : Type) : Type := world -> outcome A * world.

Definition ret {A} (a : A) : M A := fun w => (Return a, w).

Definition bind {A B} (m : M A) (k : A -> M B) : M B :=
  fun w =>
    match m w with
    | (Return a, w1) => k a w1
    | (Throw e, w1) => (Throw e, w1)
    end.

Declare Scope js_scope.
Delimit Scope js_scope with js_scope.
Notation "x <- m ;; k" := (bind m (fun x => k))
  (at level 61, m at next level, right associativity) : js_scope.
Notation "m ;; k" := (bind m (fun _ => k))
  (at level 61, right associativity) : js_scope.
Local Open Scope js_scope.

(** [throw e]; the error is also entered in the record of raised errors. *)
Definition throw {A} (e : exn) : M A :=
  fun w => (Throw e, with_raised w (raised w ++ [e])).

(** [throw error] inside a [catch (error)]: the same error goes on. *)
Definition rethrow {A} (e : exn) : M A := fun w => (Throw e, w).

(** A pure step that may raise. *)
Definition lift {A} (o : outcome A) : M A :=
  match o with
  | Return a => ret a
  | Throw e => throw e
  end.

(** [try { body } catch (error) { handler error }] *)
Definition try_catch {A} (body : M A) (handler : exn -> M A) : M A :=
  fun w =>
    match body w with
    | (Return a, w1) => (Return a, w1)
    | (Throw e, w1) => handler e w1
    end.

(** [xs.forEach(step)] *)
Fixpoint forEach {A} (xs : list A) (step : A -> M unit) : M unit :=
  match xs with
  | [] => ret tt
  | x :: rest => step x ;; forEach rest step
  end.

(** [xs.map(f)] for a callback that may raise. *)
Fixpoint map_raising {A B} (f : A -> outcome B) (xs : list A) : outcome (list B) :=
  match xs with
  | [] => Return []
  | x :: rest =>
      match f x with
      | Throw e => Throw e
      | Return y =>
          match map_raising f rest with
          | Throw e => Throw e
          | Return ys => Return (y :: ys)
          end
      end
  end.

Definition console_log (pieces : list log_piece) : M unit :=
  fun w => (Return tt, with_stdout w (stdout w ++ [pieces])).

Definition console_error (label : jsstring) (error : exn) : M unit :=
  fun w => (Return tt, with_stderr w (stderr w ++ [[PStr label; PErr error]])).

(** ** Collaborators *)

(** [fs.readdir(directory)] *)
Definition readdir (directory : jsstring) : M (list jsstring) :=
  fun w => lift (fs_readdir w directory) w.

(** [fs.readFile(filePath, 'utf-8')] *)
Definition readFile (filePath : jsstring) : M jsstring :=
  fun w => lift (fs_readFile w filePath) w.

(** [path.join(directory, file)]; the file oracle is keyed by the joined
    path, which is left as it is. *)
Definition path_join (directory file : jsstring) : jsstring :=
  directory ++ js "/" ++ file.

(** [fetch(url, options)]: the request is issued, then the promise settles. *)
Definition fetch (req : request) : M (N * outcome jsval) :=
  fun w =>
    let w1 := with_requests w (requests w ++ [req]) in
    match http_server w (length (requests w)) req with
    | NetworkFailure e => throw e w1
    | Response status payload => (Return (status, payload), w1)
    end.

(** [response.ok] *)
Definition response_ok (status : N) : bool := ((200 <=? status) && (status <=? 299))%N.

(** A call on the store client: it is recorded, then it fails or goes on. *)
Definition chroma_request {A} (call : chroma_call) (k : M A) : M A :=
  fun w =>
    let w1 := with_store w (collections w) (chroma_calls w ++ [call]) in
    match chroma_fault w (length (chroma_calls w)) with
    | Some e => throw e w1
    | None => k w1
    end.

Definition has_collection (name : jsstring) (w : world) : bool :=
  existsb (jsstring_eqb name) (collections w).

(** [client.getOrCreateCollection({ name })]; a collection is its name. *)
Definition getOrCreateCollection (name : jsstring) : M jsstring :=
  chroma_request (GetOrCreateCollection name)
    (fun w =>
       if has_collection name w then (Return name, w)
       else (Return name, with_store w (collections w ++ [name]) (chroma_calls w))).

(** [client.getCollection({ name })]: rejected when there is none. *)
Definition getCollection (name : jsstring) : M jsstring :=
  chroma_request (GetCollection name)
    (fun w =>
       if has_collection name w then (Return name, w)
       else throw (External (js "collection does not exist")) w).

(** [collection.add({ ids, embeddings, metadatas, documents })] *)
Definition collection_add (collection : jsstring) (ids : list jsstring)
    (embeddings : list jsval) (metadatas : list Metadata) (documents : list jsstring)
  : M unit :=
  chroma_request (Add collection ids embeddings metadatas documents) (ret tt).

(** [collection.query({ queryEmbeddings, nResults })] *)
Definition collection_query (collection : jsstring) (queryEmbeddings : list jsval)
    (nResults : N) : M jsval :=
  chroma_request (Query collection queryEmbeddings nResults)
    (fun w => (Return (chroma_answer w (chroma_calls w) collection queryEmbeddings nResults), w)).

(** Pure steps that may raise, chained. *)
Definition and_then {A B} (o : outcome A) (k : A -> outcome B) : outcome B :=
  match o with
  | Return a => k a
  | Throw e => Throw e
  end.

Notation "'let?' x := o 'in' k" := (and_then o (fun x => k))
  (at level 10, x name, o at level 100, k at level 200).

(** [xs.map((x, index) => f x index)] for a callback that may raise. *)
Fixpoint mapi_raising_from {A B} (f : A -> nat -> outcome B) (start : nat) (xs : list A)
  : outcome (list B) :=
  match xs with
  | [] => Return []
  | x :: rest =>
      let? y := f x start in
      let? ys := mapi_raising_from f (S start) rest in
      Return (y :: ys)
  end.

Definition mapi_raising {A B} (f : A -> nat -> outcome B) (xs : list A) : outcome (list B) :=
  mapi_raising_from f 0 xs.

(** ** Configuration constants *)

Definition CODE_DIR : jsstring := js "./code_files".
Definition COLLECTION_NAME : jsstring := js "code_vectors".
Definition MODEL_NAME : jsstring := js "all-MiniLM-L6-v2".
Definition MAX_RESULTS : N := 5.

(** ** readCodeFiles *)

Definition accepted_extension (file : jsstring) : bool :=
  endsWith file (js ".js") || endsWith file (js ".py") || endsWith file (js ".txt").

(** [content.split('\n').map((line, index) => ({ content: line.trim(), file,
    lineNumber: index + 1 }))] *)
Definition numbered_lines (file text : jsstring) : list LineRecord :=
  mapi (fun line index =>
          {| content := trim line; file := file; lineNumber := N.of_nat index + 1 |})
       (split_newline text).

(** Truthiness of a string: it is not empty. *)
Definition truthy_string (s : jsstring) : bool :=
  match s with [] => false | _ :: _ => true end.

(** [lines.filter(line => line.content)] over the lines of one file. *)
Definition file_records (file text : jsstring) : list LineRecord :=
  filter (fun line => truthy_string (line.(content))) (numbered_lines file text).

Definition stack_overflow : exn := RangeError (js "Maximum call stack size exceeded").

(** [codeData.push(...records)]: the spread makes every record an argument
    of the one call to [push], and a call with more arguments than the
    engine can place on its stack raises a [RangeError] before [push] runs.
    Where the bound lies depends on the engine and its stack; it is
    [max_arguments] of the world. *)
Definition push_spread {A} (codeData records : list A) : M (list A) :=
  fun w =>
    if (length_N records <=? max_arguments w)%N then ret (codeData ++ records) w
    else throw stack_overflow w.

(** The [for (const file of files)] loop; [codeData] is the array it grows. *)
Fixpoint readCodeFiles_loop (directory : jsstring) (files : list jsstring)
    (codeData : list LineRecord) : M (list LineRecord) :=
  match files with
  | [] => ret codeData
  | file :: rest =>
      if accepted_extension file then
        text <- readFile (path_join directory file) ;;
        codeData' <- push_spread codeData (file_records file text) ;;
        readCodeFiles_loop directory rest codeData'
      else readCodeFiles_loop directory rest codeData
  end.

Definition readCodeFiles (directory : jsstring) : M (list LineRecord) :=
  try_catch
    (files <- readdir directory ;;
     readCodeFiles_loop directory files [])
    (fun error =>
       console_error (js "Error reading code files:") error ;;
       ret []).

(** ** generateEmbeddings *)

Definition EMBEDDING_URL : jsstring :=
  js "http://127.0.0.1:8080/pipeline/feature-extraction/sentence-transformers/all-MiniLM-L6-v2".

(** The POST carrying one text as a one-element batch. *)
Definition embedding_request (text : jsstring) : request :=
  {| req_url := EMBEDDING_URL;
     req_method := js "POST";
     req_headers := [(js "Accept", js "application/json");
                     (js "Content-Type", js "application/json")];
     req_body := JObj [(js "inputs", JArr [JStr text])] |}.

(** [Array.isArray(data) ? data[0] : data.embeddings[0]] *)
Definition first_embedding (data : jsval) : outcome jsval :=
  if isArray data then get_index data 0
  else let? es := get_prop data (js "embeddings") in get_index es 0.

Definition http_error (status : N) : exn :=
  Error (js "HTTP error! status: " ++ decimal status).

(** The body of the [for (const text of texts)] loop up to the embedding it
    reads: one POST, the status check, the parsing of the body, the first
    embedding of the batch. *)
Definition request_embedding (text : jsstring) : M jsval :=
  response <- fetch (embedding_request text) ;;
  if negb (response_ok (fst response)) then throw (http_error (fst response))
  else
    data <- lift (snd response) ;;
    lift (first_embedding data).

(** The loop; [embeddings] is the array it grows by [push]. *)
Fixpoint generateEmbeddings_loop (texts : list jsstring) (embeddings : list jsval)
  : M (list jsval) :=
  match texts with
  | [] => ret embeddings
  | text :: rest =>
      embedding <- request_embedding text ;;
      generateEmbeddings_loop rest (embeddings ++ [embedding])
  end.

Definition generateEmbeddings (texts : list jsstring) : M (list jsval) :=
  try_catch
    (generateEmbeddings_loop texts [])
    (fun error =>
       console_error (js "Error generating embeddings:") error ;;
       rethrow error).

(** ** storeCodeInVectorDB *)

(** [Array.isArray(e[0]) && Array.isArray(e[0][0]) ? e[0][0]
     : Array.isArray(e[0]) ? e[0] : e] *)
Definition flatten_embedding (e : jsval) : outcome jsval :=
  let? e0 := get_index e 0 in
  let? doubly :=
    (if isArray e0 then
       let? e0' := get_index e 0 in
       let? e00 := get_index e0' 0 in
       Return (isArray e00)
     else Return false) in
  if doubly then
    let? e0' := get_index e 0 in get_index e0' 0
  else
    let? e0' := get_index e 0 in
    if isArray e0' then get_index e 0 else Return e.

Definition mismatched (ids : list jsstring) (embeddings : list jsval)
    (texts : list jsstring) (metadatas : list Metadata) : bool :=
  negb (length_N ids =? length_N embeddings)%N
  || negb (length_N ids =? length_N texts)%N
  || negb (length_N ids =? length_N metadatas)%N.

Definition mismatch_error (ids : list jsstring) (embeddings : list jsval)
    (texts : list jsstring) (metadatas : list Metadata) : exn :=
  Error (js "Mismatched lengths: ids=" ++ decimal (length_N ids)
         ++ js ", embeddings=" ++ decimal (length_N embeddings)
         ++ js ", texts=" ++ decimal (length_N texts)
         ++ js ", metadatas=" ++ decimal (length_N metadatas)).

(** The end of the [try] block: the length check, the single [add], the
    closing message.  [stored] is [codeData.length]. *)
Definition check_and_add (collection : jsstring) (stored : N)
    (ids : list jsstring) (embeddings flatEmbeddings : list jsval)
    (texts : list jsstring) (metadatas : list Metadata) : M unit :=
  console_log [PStr (js "ids:"); PVal (num_of_N (length_N ids));
               PStr (js "embeddings:"); PVal (num_of_N (length_N embeddings));
               PStr (js "texts:"); PVal (num_of_N (length_N texts));
               PStr (js "metadatas:"); PVal (num_of_N (length_N metadatas))] ;;
  (if mismatched ids embeddings texts metadatas
   then throw (mismatch_error ids embeddings texts metadatas)
   else ret tt) ;;
  collection_add collection ids flatEmbeddings metadatas texts ;;
  console_log [PStr (js "Stored " ++ decimal stored ++ js " lines in vector database.")].

Definition make_ids (codeData : list LineRecord) : list jsstring :=
  mapi (fun _ index => js "line_" ++ decimal (N.of_nat index)) codeData.

Definition make_metadatas (codeData : list LineRecord) : list Metadata :=
  map (fun data => {| meta_file := data.(file); meta_lineNumber := data.(lineNumber) |})
      codeData.

Definition storeCodeInVectorDB_try : M unit :=
  collection <- getOrCreateCollection COLLECTION_NAME ;;
  codeData <- readCodeFiles CODE_DIR ;;
  if (length_N codeData =? 0)%N then
    console_log [PStr (js "No code files found to index.")]
  else
    let texts := map content codeData in
    console_log [PStr (js " Texts:  "); PVal (JArr (map JStr texts))] ;;
    embeddings <- generateEmbeddings texts ;;
    flatEmbeddings <- lift (map_raising flatten_embedding embeddings) ;;
    console_log [PStr (js "Stored embedding length:");
                 PVal (optional_length (array_get flatEmbeddings 0))] ;;
    console_log [PStr (js "Stored embedding example:"); PVal (array_get flatEmbeddings 0)] ;;
    let ids := make_ids codeData in
    let metadatas := make_metadatas codeData in
    check_and_add collection (length_N codeData) ids embeddings flatEmbeddings texts metadatas.

Definition storeCodeInVectorDB_catch (error : exn) : M unit :=
  console_error (js "Error storing code in vector DB:") error.

Definition storeCodeInVectorDB : M unit :=
  try_catch storeCodeInVectorDB_try storeCodeInVectorDB_catch.

(** ** searchCode *)

(** The flattening of the query embedding, on [queryEmbeddingArr]:
    [[ Array.isArray(q[0][0]) && Array.isArray(q[0][0][0]) ? q[0][0][0]
       : Array.isArray(q[0][0]) ? q[0][0] : q[0] ]] *)
Definition flatten_query_embedding (queryEmbeddingArr : list jsval) : outcome (list jsval) :=
  let? q00 := get_index (array_get queryEmbeddingArr 0) 0 in
  let? doubly :=
    (if isArray q00 then
       let? q00' := get_index (array_get queryEmbeddingArr 0) 0 in
       let? q000 := get_index q00' 0 in
       Return (isArray q000)
     else Return false) in
  let? flat :=
    (if doubly then
       let? q00' := get_index (array_get queryEmbeddingArr 0) 0 in get_index q00' 0
     else
       let? q00' := get_index (array_get queryEmbeddingArr 0) 0 in
       if isArray q00' then get_index (array_get queryEmbeddingArr 0) 0
       else Return (array_get queryEmbeddingArr 0)) in
  Return [flat].

(** The callback of [results.metadatas[0].map((metadata, index) => ...)]. *)
Definition make_match (results metadata : jsval) (index : nat) : outcome Match :=
  let? file := get_prop metadata (js "file") in
  let? lineNumber := get_prop metadata (js "lineNumber") in
  let? documents := get_prop results (js "documents") in
  let? documents0 := get_index documents 0 in
  let? content := get_index documents0 index in
  let? distances := get_prop results (js "distances") in
  let? distances0 := get_index distances 0 in
  let? distance := get_index distances0 index in
  Return {| match_file := file; match_lineNumber := lineNumber;
            match_content := content; match_distance := distance |}.

(** [results.metadatas[0].map(...)]: only an array has a [map] to call. *)
Definition format_results (results : jsval) : outcome (list Match) :=
  let? metadatas := get_prop results (js "metadatas") in
  let? metadatas0 := get_index metadatas 0 in
  match metadatas0 with
  | JArr elems => mapi_raising (make_match results) elems
  | JUndefined => Throw (TypeError (js "Cannot read properties of undefined"))
  | JNull => Throw (TypeError (js "Cannot read properties of null"))
  | _ => Throw (TypeError (js "results.metadatas[0].map is not a function"))
  end.

(** The [try] block up to the store's response: the query is embedded and
    flattened, the collection fetched and queried. *)
Definition searchCode_response (query : jsstring) (nResults : N) : M jsval :=
  queryEmbeddingArr <- generateEmbeddings [query] ;;
  flatQueryEmbedding <- lift (flatten_query_embedding queryEmbeddingArr) ;;
  console_log [PStr (js "Query embedding length:");
               PVal (optional_length (array_get flatQueryEmbedding 0))] ;;
  console_log [PStr (js "Query embedding example:"); PVal (array_get flatQueryEmbedding 0)] ;;
  collection <- getCollection COLLECTION_NAME ;;
  collection_query collection flatQueryEmbedding nResults.

Definition searchCode_try (query : jsstring) (nResults : N) : M (list Match) :=
  results <- searchCode_response query nResults ;;
  matches <- lift (format_results results) ;;
  ret matches.

Definition searchCode_catch (error : exn) : M (list Match) :=
  console_error (js "Error searching code:") error ;;
  ret [].

(** [searchCode(query, nResults = MAX_RESULTS)]; [None] is the omitted
    argument. *)
Definition searchCode (query : jsstring) (nResults : option N) : M (list Match) :=
  try_catch
    (searchCode_try query (match nResults with Some n => n | None => MAX_RESULTS end))
    searchCode_catch.

(** ** main *)

(** The callback of [matches.forEach]: [toFixed] exists on numbers only. *)
Definition show_match (m : Match) : M unit :=
  match m.(match_distance) with
  | JNum x =>
      console_log [PStr (js "File: "); PVal m.(match_file);
                   PStr (js ", Line: "); PVal m.(match_lineNumber);
                   PStr (js ", Content: "); PVal m.(match_content);
                   PStr (js ", Distance: "); PFixed x 3]
  | JUndefined => throw (TypeError (js "Cannot read properties of undefined"))
  | JNull => throw (TypeError (js "Cannot read properties of null"))
  | _ => throw (TypeError (js "match.distance.toFixed is not a function"))
  end.

Definition DEMO_QUERY : jsstring := js "function factorial".

(** Steps 2 and 3 of [main]: the sample search and the display of its
    results. *)
Definition demonstration : M unit :=
  let query := DEMO_QUERY in
  console_log [PStr ([10%N] ++ js "Searching for: " ++ [34%N] ++ query ++ [34%N])] ;;
  matches <- searchCode query None ;;
  if (length_N matches =? 0)%N then
    console_log [PStr (js "No matches found.")]
  else
    console_log [PStr ([10%N] ++ js "Search Results:")] ;;
    forEach matches show_match.

Definition main : M unit :=
  console_log [PStr (js "Indexing code files...")] ;;
  storeCodeInVectorDB ;;
  demonstration.

(** [main().catch(error => console.error('Main function error:', error))] *)
Definition run_main : M unit :=
  try_catch main (console_error (js "Main function error:")).

(** ** Reading a run *)

Definition result_of {A} (r : outcome A * world) : outcome A := fst r.
Definition world_after {A} (r : outcome A * world) : world := snd r.

(** The [add] calls among the calls made on the store. *)
Definition add_calls (w : world) : list chroma_call :=
  filter (fun c => match c with Add _ _ _ _ _ => true | _ => false end) (chroma_calls w).

(** The errors written to the error stream. *)
Definition reported (w : world) : list exn :=
  flat_map (fun entry =>
              flat_map (fun p => match p with PErr e => [e] | _ => [] end) entry)
           (stderr w).

(** ** Reading a response of the store *)

Definition is_nullish (v : jsval) : bool :=
  match v with JUndefined | JNull => true | _ => false end.

(** [v.name] and [v[i]] for a [v] that is neither [undefined] nor [null]. *)
Definition property (v : jsval) (name : jsstring) : jsval :=
  match get_prop v name with Return x => x | Throw _ => JUndefined end.

Definition element (v : jsval) (i : nat) : jsval :=
  match get_index v i with Return x => x | Throw _ => JUndefined end.

(** A response whose [metadatas[0]] is the array [metadatas0] of values
    that are not null, and whose [documents[0]] and [distances[0]] are
    [documents0] and [distances0]. *)
Definition store_response (results : jsval) (metadatas0 : list jsval)
    (documents0 distances0 : jsval) : Prop :=
  (let? m := get_prop results (js "metadatas") in get_index m 0) = Return (JArr metadatas0) /\
  (let? d := get_prop results (js "documents") in get_index d 0) = Return documents0 /\
  (let? d := get_prop results (js "distances") in get_index d 0) = Return distances0 /\
  Forall (fun m => is_nullish m = false) metadatas0 /\
  is_nullish documents0 = false /\
  is_nullish distances0 = false.

(** The match at position [index]: file and line number of the metadata at
    that position, document and distance at the same position. *)
Definition match_at (documents0 distances0 metadata : jsval) (index : nat) : Match :=
  {| match_file := property metadata (js "file");
     match_lineNumber := property metadata (js "lineNumber");
     match_content := element documents0 index;
     match_distance := element distances0 index |}.

(** ** Predicates on runs *)

(** The exchanges for [texts], the first of them being the [k]-th request
    made on the endpoint, all succeed: each response has a 2xx status and a
    body that parses and from which the embedding is read; [embeddings] are
    the embeddings read, in order. *)
Fixpoint exchanges_succeed (server : nat -> request -> http_outcome) (k : nat)
    (texts : list jsstring) (embeddings : list jsval) : Prop :=
  match texts, embeddings with
  | [], [] => True
  | text :: texts', e :: embeddings' =>
      (exists status data,
          server k (embedding_request text) = Response status (Return data) /\
          response_ok status = true /\
          first_embedding data = Return e) /\
      exchanges_succeed server (S k) texts' embeddings'
  | _, _ => False
  end.

(** [m] leaves the component [proj] of the world as it found it. *)
Definition preserves {X A} (proj : world -> X) (m : M A) : Prop :=
  forall w, proj (snd (m w)) = proj w.



(** ** The sample files of the code directory *)







(** ** Reading strings back *)

(** [pieces.join('\n')], the inverse of the newline split. *)
Fixpoint join_newline (pieces : list jsstring) : jsstring :=
  match pieces with
  | [] => []
  | [p] => p
  | p :: rest => p ++ 10%N :: join_newline rest
  end.

(** A string made of white space only (the empty string is one). *)
Definition blank (s : jsstring) : Prop := Forall (fun c => is_js_whitespace c = true) s.

(** ** Reading the file system *)

(** The text of a file of the directory as the file system gives it, empty
    when it cannot be read. *)
Definition read_text (read : jsstring -> outcome jsstring) (directory file : jsstring)
  : jsstring :=
  match read (path_join directory file) with
  | Return text => text
  | Throw _ => []
  end.

(** The error of the first file of the listing that has an accepted
    extension and cannot be taken in, if there is one: the file cannot be
    read, or it has more non-blank lines than a call takes arguments. *)
Fixpoint first_read_error (read : jsstring -> outcome jsstring) (limit : N)
    (directory : jsstring) (files : list jsstring) : option exn :=
  match files with
  | [] => None
  | file :: rest =>
      if accepted_extension file then
        match read (path_join directory file) with
        | Throw e => Some e
        | Return text =>
            if (length_N (file_records file text) <=? limit)%N
            then first_read_error read limit directory rest
            else Some stack_overflow
        end
      else first_read_error read limit directory rest
  end.

(** The world after [e] was raised and then written to the error stream
    under [label]. *)
Definition after_reported_error (w : world) (label : jsstring) (e : exn) : world :=
  with_stderr (with_raised w (raised w ++ [e])) (stderr w ++ [[PStr label; PErr e]]).

(** ** Reading an exchange with the endpoint *)

(** What one exchange comes to: the error of a failed connection, the HTTP
    error of a non-success status, the error of a body that does not parse
    or holds no first embedding, or else the embedding. *)
Definition exchange_result (answer : http_outcome) : outcome jsval :=
  match answer with
  | NetworkFailure e => Throw e
  | Response status payload =>
      if response_ok status then let? data := payload in first_embedding data
      else Throw (http_error status)
  end.

(** ** Reading the display *)

(** The distance of a match when it is a number. *)
Definition distance_number (m : Match) : option Q :=
  match m.(match_distance) with
  | JNum x => Some x
  | _ => None
  end.

(** The line printed for a match whose distance is the number [x]. *)
Definition match_line (m : Match) (x : Q) : list log_piece :=
  [PStr (js "File: "); PVal m.(match_file);
   PStr (js ", Line: "); PVal m.(match_lineNumber);
   PStr (js ", Content: "); PVal m.(match_content);
   PStr (js ", Distance: "); PFixed x 3].

(** The lines of the matches that come before the first one whose distance
    is not a number. *)
Fixpoint shown_lines (matches : list Match) : list (list log_piece) :=
  match matches with
  | [] => []
  | m :: rest =>
      match distance_number m with
      | Some x => match_line m x :: shown_lines rest
      | None => []
      end
  end.

(** The line [main] prints before the search. *)
Definition searching_line : list log_piece :=
  [PStr ([10%N] ++ js "Searching for: " ++ [34%N] ++ DEMO_QUERY ++ [34%N])].

(** ** A sample run *)

(** One indexed file of four lines, the second blank; an endpoint that
    answers every request with the same two-dimensional vector in a
    one-element batch; a store that answers every query with one hit. *)
Definition sample_text : jsstring :=
  js "function factorial(n) {" ++ [10%N; 10%N] ++ js "  return 1; " ++ [10%N] ++ js "}".

Definition sample_vector : jsval := JArr [JNum (1 # 2); JNum (3 # 4)].

Definition sample_answer : jsval :=
  JObj [(js "metadatas",
         JArr [JArr [JObj [(js "file", JStr (js "a.js")); (js "lineNumber", num_of_N 1)]]]);
        (js "documents", JArr [JArr [JStr (js "function factorial(n) {")]]);
        (js "distances", JArr [JArr [JNum (1 # 8)]])].

Definition sample_world : world :=
  {| fs_readdir := fun _ => Return [js "a.js"; js "notes.md"];
     fs_readFile := fun _ => Return sample_text;
     http_server := fun _ _ => Response 200 (Return (JArr [sample_vector]));
     chroma_fault := fun _ => None;
     chroma_answer := fun _ _ _ _ => sample_answer;
     max_arguments := 125000;
     requests := []; collections := []; chroma_calls := [];
     stdout := []; stderr := []; raised := [] |}.

(** The same world with the collection in place, as after an indexing run. *)
Definition indexed_world : world :=
  with_store sample_world [COLLECTION_NAME] [].

(** The same world, except that the endpoint answers its second request
    with status 503. *)
Definition flaky_world : world :=
  {| fs_readdir := fs_readdir sample_world;
     fs_readFile := fs_readFile sample_world;
     http_server := fun k _ =>
       if Nat.eqb k 1 then Response 503 (Return JNull)
       else Response 200 (Return (JArr [sample_vector]));
     chroma_fault := chroma_fault sample_world;
     chroma_answer := chroma_answer sample_world;
     max_arguments := max_arguments sample_world;
     requests := []; collections := []; chroma_calls := [];
     stdout := []; stderr := []; raised := [] |}.

(** Three lines paired with two embeddings: the lengths the check is there
    for. *)
Definition three_lines : list LineRecord :=
  [ {| content := js "a"; file := js "a.js"; lineNumber := 1 |};
    {| content := js "b"; file := js "a.js"; lineNumber := 2 |};
    {| content := js "c"; file := js "a.js"; lineNumber := 3 |} ].

Definition two_embeddings : list jsval := [sample_vector; sample_vector].

(** A store that answers with three hits whose distances are not in
    ascending order. *)
Definition line_metadata (name : string) (line : N) : jsval :=
  JObj [(js "file", JStr (js name)); (js "lineNumber", num_of_N line)].

Definition unsorted_answer : jsval :=
  JObj [(js "metadatas",
         JArr [JArr [line_metadata "a.js" 1; line_metadata "a.js" 3; line_metadata "b.py" 7]]);
        (js "documents",
         JArr [JArr [JStr (js "one"); JStr (js "two"); JStr (js "three")]]);
        (js "distances",
         JArr [JArr [JNum (1 # 10); JNum (1 # 20); JNum (3 # 10)]])].

Definition unsorted_world : world :=
  {| fs_readdir := fs_readdir sample_world;
     fs_readFile := fs_readFile sample_world;
     http_server := http_server sample_world;
     chroma_fault := chroma_fault sample_world;
     chroma_answer := fun _ _ _ _ => unsorted_answer;
     max_arguments := max_arguments sample_world;
     requests := []; collections := [COLLECTION_NAME]; chroma_calls := [];
     stdout := []; stderr := []; raised := [] |}.

(** A directory that holds no file with an accepted extension, and whose
    files cannot be read anyway. *)
Definition docs_only_world : world :=
  {| fs_readdir := fun _ => Return [js "notes.md"; js "README"; js "main.jsx"];
     fs_readFile := fun _ => Throw (External (js "EACCES"));
     http_server := http_server sample_world;
     chroma_fault := chroma_fault sample_world;
     chroma_answer := chroma_answer sample_world;
     max_arguments := max_arguments sample_world;
     requests := []; collections := []; chroma_calls := [];
     stdout := []; stderr := []; raised := [] |}.

(** An endpoint that cannot be reached from its third request on. *)
Definition unplugged_world : world :=
  {| fs_readdir := fs_readdir sample_world;
     fs_readFile := fs_readFile sample_world;
     http_server := fun k _ =>
       if Nat.leb 2 k then NetworkFailure (External (js "ECONNREFUSED"))
       else Response 200 (Return (JArr [sample_vector]));
     chroma_fault := chroma_fault sample_world;
     chroma_answer := chroma_answer sample_world;
     max_arguments := max_arguments sample_world;
     requests := []; collections := []; chroma_calls := [];
     stdout := []; stderr := []; raised := [] |}.

(** A world whose code directory cannot be listed. *)
Definition no_directory_world : world :=
  {| fs_readdir := fun _ => Throw (External (js "ENOENT"));
     fs_readFile := fs_readFile sample_world;
     http_server := http_server sample_world;
     chroma_fault := chroma_fault sample_world;
     chroma_answer := chroma_answer sample_world;
     max_arguments := max_arguments sample_world;
     requests := []; collections := []; chroma_calls := [];
     stdout := []; stderr := []; raised := [] |}.

(** A store that answers with two hits, the second without metadata. *)
Definition null_metadata_answer : jsval :=
  JObj [(js "metadatas", JArr [JArr [line_metadata "a.js" 1; JNull]]);
        (js "documents", JArr [JArr [JStr (js "one"); JStr (js "two")]]);
        (js "distances", JArr [JArr [JNum (1 # 10); JNum (1 # 5)]])].

Definition null_metadata_world : world :=
  {| fs_readdir := fs_readdir sample_world;
     fs_readFile := fs_readFile sample_world;
     http_server := http_server sample_world;
     chroma_fault := chroma_fault sample_world;
     chroma_answer := fun _ _ _ _ => null_metadata_answer;
     max_arguments := max_arguments sample_world;
     requests := []; collections := [COLLECTION_NAME]; chroma_calls := [];
     stdout := []; stderr := []; raised := [] |}.

(** A store that answers with two hits and the distance of the first only. *)
Definition short_distances_answer : jsval :=
  JObj [(js "metadatas", JArr [JArr [line_metadata "a.js" 1; line_metadata "a.js" 2]]);
        (js "documents", JArr [JArr [JStr (js "one"); JStr (js "two")]]);
        (js "distances", JArr [JArr [JNum (1 # 10)]])].

Definition short_distances_world : world :=
  {| fs_readdir := fs_readdir sample_world;
     fs_readFile := fs_readFile sample_world;
     http_server := http_server sample_world;
     chroma_fault := chroma_fault sample_world;
     chroma_answer := fun _ _ _ _ => short_distances_answer;
     max_arguments := max_arguments sample_world;
     requests := []; collections := [COLLECTION_NAME]; chroma_calls := [];
     stdout := []; stderr := []; raised := [] |}.



(** The sample world with an endpoint that answers with a batch of one
    sequence of one vector: the embedding read is the vector in two arrays. *)
Definition nested_world : world :=
  {| fs_readdir := fs_readdir sample_world;
     fs_readFile := fs_readFile sample_world;
     http_server := fun _ _ => Response 200 (Return (JArr [JArr [JArr [sample_vector]]]));
     chroma_fault := chroma_fault sample_world;
     chroma_answer := chroma_answer sample_world;
     max_arguments := max_arguments sample_world;
     requests := []; collections := []; chroma_calls := [];
     stdout := []; stderr := []; raised := [] |}.

(** A store that cannot be reached. *)
Definition no_store_world : world :=
  {| fs_readdir := fs_readdir sample_world;
     fs_readFile := fs_readFile sample_world;
     http_server := http_server sample_world;
     chroma_fault := fun _ => Some (External (js "ECONNREFUSED"));
     chroma_answer := chroma_answer sample_world;
     max_arguments := max_arguments sample_world;
     requests := []; collections := []; chroma_calls := [];
     stdout := []; stderr := []; raised := [] |}.

(** * Properties *)

(** ** Running the monad *)

Lemma run_bind {A B} (m : M A) (k : A -> M B) (w : world) :
  bind m k w =
  match m w with
  | (Return a, w1) => k a w1
  | (Throw e, w1) => (Throw e, w1)
  end.
Proof. reflexivity. Qed.

Lemma run_bind_return {A B} (m : M A) (k : A -> M B) (w w1 : world) (a : A) :
  m w = (Return a, w1) -> bind m k w = k a w1.
Proof. intros H. unfold bind. rewrite H. reflexivity. Qed.

Lemma run_bind_throw {A B} (m : M A) (k : A -> M B) (w w1 : world) (e : exn) :
  m w = (Throw e, w1) -> bind m k w = (Throw e, w1).
Proof. intros H. unfold bind. rewrite H. reflexivity. Qed.

Lemma run_try_return {A} (body : M A) (h : exn -> M A) (w w1 : world) (a : A) :
  body w = (Return a, w1) -> try_catch body h w = (Return a, w1).
Proof. intros H. unfold try_catch. rewrite H. reflexivity. Qed.

Lemma run_try_throw {A} (body : M A) (h : exn -> M A) (w w1 : world) (e : exn) :
  body w = (Throw e, w1) -> try_catch body h w = h e w1.
Proof. intros H. unfold try_catch. rewrite H. reflexivity. Qed.

(** ** Lists with indices *)

Lemma length_mapi_from {A B} (f : A -> nat -> B) (l : list A) (s : nat) :
  length (mapi_from f s l) = length l.
Proof.
  revert s. induction l as [|x l IH]; intros s; simpl; [reflexivity|].
  now rewrite IH.
Qed.

Lemma length_mapi {A B} (f : A -> nat -> B) (l : list A) :
  length (mapi f l) = length l.
Proof. apply length_mapi_from. Qed.

Lemma nth_error_mapi_from {A B} (f : A -> nat -> B) (l : list A) (s i : nat) :
  nth_error (mapi_from f s l) i = option_map (fun x => f x (s + i)) (nth_error l i).
Proof.
  revert s i. induction l as [|x l IH]; intros s [|i]; simpl; try reflexivity.
  - now rewrite Nat.add_0_r.
  - rewrite IH. now rewrite Nat.add_succ_r.
Qed.

Lemma In_mapi_from {A B} (f : A -> nat -> B) (l : list A) (s : nat) (y : B) :
  In y (mapi_from f s l) <-> exists i x, nth_error l i = Some x /\ y = f x (s + i).
Proof.
  split.
  - intros Hin. apply In_nth_error in Hin. destruct Hin as [i Hi].
    rewrite nth_error_mapi_from in Hi.
    destruct (nth_error l i) as [x|] eqn:Hx; [|discriminate].
    exists i, x. simpl in Hi. split; [exact Hx|congruence].
  - intros (i & x & Hx & ->).
    apply nth_error_In with (n := i).
    rewrite nth_error_mapi_from, Hx. reflexivity.
Qed.


Lemma truthy_string_nonempty (s : jsstring) : truthy_string s = true <-> s <> [].
Proof. destruct s; simpl; split; congruence. Qed.

(** ** The two flattenings *)

Lemma flatten_embedding_flat (v : list Q) :
  flatten_embedding (JArr (map JNum v)) = Return (JArr (map JNum v)).
Proof. destruct v; reflexivity. Qed.

Lemma flatten_embedding_nested_once (v : list Q) :
  flatten_embedding (JArr [JArr (map JNum v)]) = Return (JArr (map JNum v)).
Proof. destruct v; reflexivity. Qed.

Lemma flatten_embedding_nested_twice (v : list Q) :
  flatten_embedding (JArr [JArr [JArr (map JNum v)]]) = Return (JArr (map JNum v)).
Proof. reflexivity. Qed.

(** The expression of lines 142-148 is the one of lines 97-99 applied to
    the first entry of [queryEmbeddingArr]. *)
Lemma flatten_query_embedding_spec (queryEmbeddingArr : list jsval) :
  flatten_query_embedding queryEmbeddingArr
  = map_raising flatten_embedding [array_get queryEmbeddingArr 0].
Proof.
  unfold flatten_query_embedding, flatten_embedding, map_raising.
  generalize (array_get queryEmbeddingArr 0). intros e.
  destruct (get_index e 0) as [e0|x]; simpl; [|reflexivity].
  destruct (isArray e0); simpl; [|reflexivity].
  destruct (get_index e0 0) as [e00|x]; simpl; [|reflexivity].
  destruct (isArray e00); reflexivity.
Qed.

(** ** The lines of a file *)


Lemma file_records_In (file text : jsstring) (r : LineRecord) :
  In r (file_records file text) <->
  exists i line,
    nth_error (split_newline text) i = Some line /\ trim line <> [] /\
    r = {| content := trim line; file := file; lineNumber := N.of_nat i + 1 |}.
Proof.
  unfold file_records, numbered_lines, mapi.
  rewrite filter_In, In_mapi_from. split.
  - intros [(i & line & Hline & ->) Htruthy]. simpl in Htruthy.
    exists i, line. repeat split; [assumption|].
    now apply truthy_string_nonempty.
  - intros (i & line & Hline & Hne & ->). split.
    + exists i, line. split; [assumption|reflexivity].
    + simpl. now apply truthy_string_nonempty.
Qed.


Lemma readCodeFiles_loop_run (directory : jsstring) (w : world)
    (files : list jsstring) (codeData : list LineRecord) :
  readCodeFiles_loop directory files codeData w =
  match first_read_error (fs_readFile w) (max_arguments w) directory files with
  | Some e => (Throw e, with_raised w (raised w ++ [e]))
  | None =>
      (Return (codeData
               ++ flat_map (fun f => file_records f (read_text (fs_readFile w) directory f))
                           (filter accepted_extension files)), w)
  end.
Proof.
  revert codeData. induction files as [|f files IH]; intros codeData; simpl.
  - now rewrite app_nil_r.
  - destruct (accepted_extension f) eqn:Hacc; [|apply IH].
    rewrite run_bind. unfold readFile at 1. unfold read_text at 1.
    destruct (fs_readFile w (path_join directory f)) as [text|e] eqn:Hread; simpl;
      [|reflexivity].
    rewrite run_bind. unfold push_spread at 1.
    destruct (length_N (file_records f text) <=? max_arguments w)%N; [|reflexivity].
    cbn [ret]. rewrite IH.
    destruct (first_read_error (fs_readFile w) (max_arguments w) directory files);
      [reflexivity|].
    unfold read_text at 1. rewrite Hread. now rewrite <- app_assoc.
Qed.

Lemma readCodeFiles_run (directory : jsstring) (w : world) :
  readCodeFiles directory w =
  match fs_readdir w directory with
  | Throw e => (Return [], after_reported_error w (js "Error reading code files:") e)
  | Return files =>
      match first_read_error (fs_readFile w) (max_arguments w) directory files with
      | Some e => (Return [], after_reported_error w (js "Error reading code files:") e)
      | None =>
          (Return (flat_map (fun f => file_records f (read_text (fs_readFile w) directory f))
                            (filter accepted_extension files)), w)
      end
  end.
Proof.
  unfold readCodeFiles, try_catch. rewrite run_bind. unfold readdir at 1.
  destruct (fs_readdir w directory) as [files|e]; simpl; [|reflexivity].
  rewrite readCodeFiles_loop_run.
  destruct (first_read_error (fs_readFile w) (max_arguments w) directory files);
    reflexivity.
Qed.







(** ** The embedding client *)

Lemma request_embedding_succeeds (text : jsstring) (w : world) (status : N)
    (data e : jsval) :
  http_server w (length (requests w)) (embedding_request text)
  = Response status (Return data) ->
  response_ok status = true ->
  first_embedding data = Return e ->
  request_embedding text w
  = (Return e, with_requests w (requests w ++ [embedding_request text])).
Proof.
  intros Hresp Hstatus Hfirst. unfold request_embedding.
  rewrite run_bind. unfold fetch. rewrite Hresp. cbn [fst snd].
  rewrite Hstatus. cbn [negb]. rewrite run_bind. cbn [lift ret].
  rewrite Hfirst. reflexivity.
Qed.

(** One exchange always issues its request, and a non-success status makes
    it raise the HTTP error. *)
Lemma request_embedding_run (text : jsstring) (w : world) :
  requests (snd (request_embedding text w)) = requests w ++ [embedding_request text] /\
  http_server (snd (request_embedding text w)) = http_server w /\
  (forall status payload,
      http_server w (length (requests w)) (embedding_request text)
      = Response status payload ->
      response_ok status = false ->
      fst (request_embedding text w) = Throw (http_error status)).
Proof.
  unfold request_embedding. rewrite run_bind. unfold fetch.
  destruct (http_server w (length (requests w)) (embedding_request text))
    as [e|status payload].
  - simpl. repeat split. intros; discriminate.
  - cbn [fst snd]. destruct (response_ok status) eqn:Hok; cbn [negb].
    + rewrite run_bind.
      destruct payload as [data|e]; cbn [lift ret throw].
      * destruct (first_embedding data); simpl; repeat split;
          intros status' payload' Heq Hbad; inversion Heq; subst; congruence.
      * simpl; repeat split.
        intros status' payload' Heq Hbad; inversion Heq; subst; congruence.
    + simpl. repeat split.
      intros status' payload' Heq _. inversion Heq; subst. reflexivity.
Qed.

Lemma generateEmbeddings_loop_succeeds (texts : list jsstring) :
  forall (embeddings acc : list jsval) (w : world),
    exchanges_succeed (http_server w) (length (requests w)) texts embeddings ->
    generateEmbeddings_loop texts acc w
    = (Return (acc ++ embeddings),
       with_requests w (requests w ++ map embedding_request texts)).
Proof.
  induction texts as [|text texts IH]; intros embeddings acc w Hok.
  - destruct embeddings; [|contradiction]. simpl.
    rewrite !app_nil_r. destruct w; reflexivity.
  - destruct embeddings as [|e embeddings]; [contradiction|].
    destruct Hok as [(status & data & Hresp & Hstatus & Hfirst) Hrest].
    cbn [generateEmbeddings_loop].
    rewrite run_bind, (request_embedding_succeeds _ _ Hresp Hstatus Hfirst).
    rewrite (IH embeddings).
    + simpl. rewrite <- !app_assoc. reflexivity.
    + simpl. rewrite length_app, Nat.add_1_r. exact Hrest.
Qed.

Lemma exchanges_succeed_length (server : nat -> request -> http_outcome)
    (texts : list jsstring) :
  forall (k : nat) (embeddings : list jsval),
    exchanges_succeed server k texts embeddings -> length embeddings = length texts.
Proof.
  induction texts as [|text texts IH]; intros k [|e embeddings] H; simpl in *;
    try contradiction; [reflexivity|].
  destruct H as [_ H]. now rewrite (IH _ _ H).
Qed.

(** What any run of the loop looks like: it issues the requests of the
    first [n] texts, one each and in order; it returns only after all of
    them, with one more embedding per text; and a non-success status met on
    the way ends it there, with the HTTP error. *)
Lemma generateEmbeddings_loop_trace (texts : list jsstring) :
  forall (acc : list jsval) (w : world),
  exists n,
    n <= length texts /\
    requests (snd (generateEmbeddings_loop texts acc w))
    = requests w ++ map embedding_request (firstn n texts) /\
    (forall embeddings,
        fst (generateEmbeddings_loop texts acc w) = Return embeddings ->
        n = length texts /\ length embeddings = length acc + length texts) /\
    (forall k text status payload,
        k < n ->
        nth_error texts k = Some text ->
        http_server w (length (requests w) + k) (embedding_request text)
        = Response status payload ->
        response_ok status = false ->
        n = S k /\
        fst (generateEmbeddings_loop texts acc w) = Throw (http_error status)).
Proof.
  induction texts as [|text texts IH]; intros acc w.
  - exists 0. simpl. split; [lia|]. split; [now rewrite app_nil_r|]. split.
    + intros embeddings H. inversion H. split; lia.
    + intros k text status payload Hk. lia.
  - cbn [generateEmbeddings_loop]. rewrite run_bind.
    destruct (request_embedding_run text w) as (Hreq1 & Hserver1 & Hbad1).
    destruct (request_embedding text w) as [[embedding|e] w1]; cbn [fst snd] in *.
    + destruct (IH (acc ++ [embedding]) w1) as (n & Hn & Hreq & Hret & Hbad).
      exists (S n). split; [simpl; lia|]. split; [|split].
      * rewrite Hreq, Hreq1. simpl. now rewrite <- app_assoc.
      * intros embeddings Ho. destruct (Hret _ Ho) as [-> Hlen].
        split; [reflexivity|]. rewrite Hlen, length_app. simpl. lia.
      * intros k text' status payload Hk Hnth Hresp Hstatus.
        destruct k as [|k].
        { rewrite Nat.add_0_r in Hresp. simpl in Hnth. inversion Hnth; subst text'.
          specialize (Hbad1 _ _ Hresp Hstatus). discriminate. }
        simpl in Hnth.
        destruct (Hbad k text' status payload) as [-> Hthrow];
          [lia|exact Hnth| |exact Hstatus|split; [reflexivity|exact Hthrow]].
        rewrite Hserver1, Hreq1, length_app. simpl.
        replace (length (requests w) + 1 + k) with (length (requests w) + S k) by lia.
        exact Hresp.
    + exists 1. simpl. split; [lia|]. split; [exact Hreq1|]. split.
      * intros embeddings Ho. discriminate.
      * intros k text' status payload Hk Hnth Hresp Hstatus.
        assert (k = 0) by lia. subst k. simpl in Hnth. inversion Hnth; subst text'.
        rewrite Nat.add_0_r in Hresp. split; [reflexivity|].
        specialize (Hbad1 _ _ Hresp Hstatus). congruence.
Qed.

Lemma generateEmbeddings_run (texts : list jsstring) (w : world) :
  generateEmbeddings texts w =
  match generateEmbeddings_loop texts [] w with
  | (Return embeddings, w1) => (Return embeddings, w1)
  | (Throw e, w1) =>
      (Throw e,
       with_stderr w1 (stderr w1 ++ [[PStr (js "Error generating embeddings:"); PErr e]]))
  end.
Proof.
  unfold generateEmbeddings, try_catch.
  destruct (generateEmbeddings_loop texts [] w) as [[embeddings|e] w1]; reflexivity.
Qed.

Lemma reported_app (w : world) (label : jsstring) (e : exn) :
  reported (with_stderr w (stderr w ++ [[PStr label; PErr e]])) = reported w ++ [e].
Proof. unfold reported. simpl. now rewrite flat_map_app. Qed.

(** C5. When every exchange succeeds, [generateEmbeddings] returns the
    embeddings read from the responses, one per text and in the order of the
    texts, after issuing exactly one request per text, in order.  Whenever
    it returns at all, it returns as many embeddings as there are texts and
    has issued exactly these requests.  The body of each request wraps its
    single text in a one-element batch. *)
Theorem generateEmbeddings_one_per_text :
  (forall (texts : list jsstring) (embeddings : list jsval) (w : world),
      exchanges_succeed (http_server w) (length (requests w)) texts embeddings ->
      result_of (generateEmbeddings texts w) = Return embeddings /\
      length embeddings = length texts /\
      requests (world_after (generateEmbeddings texts w))
      = requests w ++ map embedding_request texts) /\
  (forall (texts : list jsstring) (embeddings : list jsval) (w : world),
      result_of (generateEmbeddings texts w) = Return embeddings ->
      length embeddings = length texts /\
      requests (world_after (generateEmbeddings texts w))
      = requests w ++ map embedding_request texts) /\
  (forall texts : list jsstring,
      map req_body (map embedding_request texts)
      = map (fun text => JObj [(js "inputs", JArr [JStr text])]) texts).
Proof.
  split; [|split].
  - intros texts embeddings w Hok.
    unfold generateEmbeddings, result_of, world_after.
    rewrite (run_try_return _ _ _
               (generateEmbeddings_loop_succeeds texts embeddings [] w Hok)).
    simpl. repeat split.
    eapply exchanges_succeed_length; eassumption.
  - intros texts embeddings w. unfold result_of, world_after.
    rewrite generateEmbeddings_run.
    destruct (generateEmbeddings_loop_trace texts [] w) as (n & _ & Hreq & Hret & _).
    destruct (generateEmbeddings_loop texts [] w) as [[embeddings'|e] w1];
      cbn [fst snd] in *; [|discriminate].
    intros Heq. inversion Heq; subst embeddings'.
    destruct (Hret embeddings eq_refl) as [-> Hlen].
    rewrite firstn_all in Hreq. split; [exact Hlen|exact Hreq].
  - intros texts. rewrite map_map. reflexivity.
Qed.

Lemma generateEmbeddings_one_per_text_witness :
  result_of (generateEmbeddings [js "a"; js "b"; js "c"] sample_world)
  = Return [sample_vector; sample_vector; sample_vector] /\
  length (requests (world_after (generateEmbeddings [js "a"; js "b"; js "c"] sample_world))) = 3.
Proof.
  assert (Hok : exchanges_succeed (http_server sample_world)
                  (length (requests sample_world))
                  [js "a"; js "b"; js "c"] [sample_vector; sample_vector; sample_vector]).
  { simpl. repeat split; exists 200%N, (JArr [sample_vector]); repeat split. }
  destruct (proj1 generateEmbeddings_one_per_text _ _ _ Hok) as (Hres & _ & Hreq).
  split; [exact Hres|]. rewrite Hreq. reflexivity.
Defined.

(** C6. When a request of the batch is answered with a non-success status,
    [generateEmbeddings] ends with the HTTP error of that status, thrown to
    its caller and not turned into a result; the request is the last one
    issued, after one request for each earlier text, so that no later text
    is processed and nothing is tried again; the error is also written to
    the error stream. *)
Theorem generateEmbeddings_fails_on_bad_status :
  forall (texts : list jsstring) (w : world) (k : nat) (text : jsstring)
         (status : N) (payload : outcome jsval),
    nth_error texts k = Some text ->
    length (requests w) + k < length (requests (world_after (generateEmbeddings texts w))) ->
    http_server w (length (requests w) + k) (embedding_request text)
    = Response status payload ->
    response_ok status = false ->
    result_of (generateEmbeddings texts w) = Throw (http_error status) /\
    requests (world_after (generateEmbeddings texts w))
    = requests w ++ map embedding_request (firstn (S k) texts) /\
    In (http_error status) (reported (world_after (generateEmbeddings texts w))).
Proof.
  intros texts w k text status payload Hnth Hissued Hresp Hstatus.
  unfold result_of, world_after in *. rewrite generateEmbeddings_run in *.
  destruct (generateEmbeddings_loop_trace texts [] w) as (n & Hn & Hreq & _ & Hbad).
  assert (Hk : k < n).
  { destruct (generateEmbeddings_loop texts [] w) as [[embeddings|e] w1];
      cbn [fst snd] in *; simpl in Hissued; rewrite Hreq in Hissued;
      rewrite length_app, length_map, length_firstn in Hissued; lia. }
  destruct (Hbad k text status payload Hk Hnth Hresp Hstatus) as [-> Hthrow].
  destruct (generateEmbeddings_loop texts [] w) as [[embeddings|e] w1];
    cbn [fst snd] in *; [discriminate|].
  inversion Hthrow; subst e. split; [reflexivity|]. split.
  - exact Hreq.
  - rewrite reported_app. apply in_or_app. right. now left.
Qed.

Lemma generateEmbeddings_fails_on_bad_status_witness :
  result_of (generateEmbeddings [js "a"; js "b"; js "c"] flaky_world)
  = Throw (http_error 503) /\
  requests (world_after (generateEmbeddings [js "a"; js "b"; js "c"] flaky_world))
  = [embedding_request (js "a"); embedding_request (js "b")].
Proof.
  destruct (generateEmbeddings_fails_on_bad_status
              [js "a"; js "b"; js "c"] flaky_world 1 (text := js "b")
              (status := 503%N) (payload := Return JNull))
    as (Hres & Hreq & _).
  - reflexivity.
  - vm_compute. lia.
  - reflexivity.
  - reflexivity.
  - split; [exact Hres|exact Hreq].
Defined.

(** ** The length check of the index writer *)

Lemma generateEmbeddings_length (texts : list jsstring) (w w' : world)
    (embeddings : list jsval) :
  generateEmbeddings texts w = (Return embeddings, w') ->
  length embeddings = length texts.
Proof.
  rewrite generateEmbeddings_run. intros Hrun.
  destruct (generateEmbeddings_loop_trace texts [] w) as (n & _ & _ & Hret & _).
  destruct (generateEmbeddings_loop texts [] w) as [[embeddings'|e] w1];
    [|discriminate].
  inversion Hrun; subst. destruct (Hret embeddings eq_refl) as [_ Hlen].
  exact Hlen.
Qed.

Lemma mismatched_false (ids : list jsstring) (embeddings : list jsval)
    (texts : list jsstring) (metadatas : list Metadata) :
  mismatched ids embeddings texts metadatas = false <->
  length ids = length embeddings /\ length ids = length texts /\
  length ids = length metadatas.
Proof.
  unfold mismatched, length_N.
  rewrite !orb_false_iff, !negb_false_iff, !N.eqb_eq. split.
  - intros [[H1 H2] H3]. repeat split; now apply Nat2N.inj.
  - intros (H1 & H2 & H3). rewrite H1, <- H2 at 1. rewrite <- H3, H2. repeat split.
Qed.

Lemma check_and_add_mismatch (collection : jsstring) (stored : N)
    (ids : list jsstring) (embeddings flatEmbeddings : list jsval)
    (texts : list jsstring) (metadatas : list Metadata) (w : world) :
  mismatched ids embeddings texts metadatas = true ->
  check_and_add collection stored ids embeddings flatEmbeddings texts metadatas w
  = (Throw (mismatch_error ids embeddings texts metadatas),
     with_raised
       (with_stdout w
          (stdout w ++
           [[PStr (js "ids:"); PVal (num_of_N (length_N ids));
             PStr (js "embeddings:"); PVal (num_of_N (length_N embeddings));
             PStr (js "texts:"); PVal (num_of_N (length_N texts));
             PStr (js "metadatas:"); PVal (num_of_N (length_N metadatas))]]))
       (raised w ++ [mismatch_error ids embeddings texts metadatas])).
Proof.
  intros Hmis. unfold check_and_add. rewrite run_bind. unfold console_log at 1.
  rewrite run_bind, Hmis. reflexivity.
Qed.

(** C3. Whenever the four sequences do not all have the same length, the
    end of the indexing [try] block raises the mismatch error, whose message
    gives the four lengths, and no call is made on the store: in particular
    no [add]. *)
Theorem check_and_add_rejects_mismatch :
  forall (collection : jsstring) (stored : N) (ids : list jsstring)
         (embeddings flatEmbeddings : list jsval) (texts : list jsstring)
         (metadatas : list Metadata) (w : world),
    ~ (length ids = length embeddings /\ length ids = length texts /\
       length ids = length metadatas) ->
    result_of (check_and_add collection stored ids embeddings flatEmbeddings
                             texts metadatas w)
    = Throw (Error (js "Mismatched lengths: ids=" ++ decimal (length_N ids)
                    ++ js ", embeddings=" ++ decimal (length_N embeddings)
                    ++ js ", texts=" ++ decimal (length_N texts)
                    ++ js ", metadatas=" ++ decimal (length_N metadatas))) /\
    chroma_calls (world_after (check_and_add collection stored ids embeddings
                                             flatEmbeddings texts metadatas w))
    = chroma_calls w /\
    add_calls (world_after (check_and_add collection stored ids embeddings
                                          flatEmbeddings texts metadatas w))
    = add_calls w.
Proof.
  intros collection stored ids embeddings flatEmbeddings texts metadatas w Hdiff.
  assert (Hmis : mismatched ids embeddings texts metadatas = true).
  { destruct (mismatched ids embeddings texts metadatas) eqn:H; [reflexivity|].
    apply mismatched_false in H. contradiction. }
  rewrite (check_and_add_mismatch collection stored ids embeddings flatEmbeddings
                                  texts metadatas w Hmis).
  repeat split.
Qed.

Lemma check_and_add_rejects_mismatch_witness :
  result_of (check_and_add COLLECTION_NAME 3 (make_ids three_lines) two_embeddings
                           two_embeddings (map content three_lines)
                           (make_metadatas three_lines) indexed_world)
  = Throw (Error (js "Mismatched lengths: ids=3, embeddings=2, texts=3, metadatas=3")) /\
  add_calls (world_after
               (check_and_add COLLECTION_NAME 3 (make_ids three_lines) two_embeddings
                              two_embeddings (map content three_lines)
                              (make_metadatas three_lines) indexed_world))
  = [].
Proof.
  destruct (check_and_add_rejects_mismatch
              COLLECTION_NAME 3 (make_ids three_lines) two_embeddings two_embeddings
              (map content three_lines) (make_metadatas three_lines) indexed_world)
    as (Hres & _ & Hadd).
  - simpl. intros (H & _). discriminate H.
  - split; [exact Hres|exact Hadd].
Defined.

(** C9. When [generateEmbeddings] returns, it returns one embedding per
    text; the ids, the texts and the metadatas are mapped from the same
    [codeData]; so the four lengths are equal when the check runs, the check
    does not raise, and the end of the [try] block is the [add] between its
    two messages. *)
Theorem mismatch_branch_unreachable :
  forall (codeData : list LineRecord) (w w' : world) (embeddings : list jsval),
    generateEmbeddings (map content codeData) w = (Return embeddings, w') ->
    let ids := make_ids codeData in
    let texts := map content codeData in
    let metadatas := make_metadatas codeData in
    length ids = length codeData /\
    length embeddings = length codeData /\
    length texts = length codeData /\
    length metadatas = length codeData /\
    mismatched ids embeddings texts metadatas = false /\
    forall (collection : jsstring) (flatEmbeddings : list jsval) (w2 : world),
      check_and_add collection (length_N codeData) ids embeddings flatEmbeddings
                    texts metadatas w2
      = (console_log [PStr (js "ids:"); PVal (num_of_N (length_N ids));
                      PStr (js "embeddings:"); PVal (num_of_N (length_N embeddings));
                      PStr (js "texts:"); PVal (num_of_N (length_N texts));
                      PStr (js "metadatas:"); PVal (num_of_N (length_N metadatas))] ;;
         collection_add collection ids flatEmbeddings metadatas texts ;;
         console_log [PStr (js "Stored " ++ decimal (length_N codeData)
                            ++ js " lines in vector database.")]) w2.
Proof.
  intros codeData w w' embeddings Hgen ids texts metadatas.
  assert (Hids : length ids = length codeData) by apply length_mapi.
  assert (Hemb : length embeddings = length codeData).
  { rewrite (generateEmbeddings_length _ _ Hgen). apply length_map. }
  assert (Htexts : length texts = length codeData) by apply length_map.
  assert (Hmeta : length metadatas = length codeData) by apply length_map.
  assert (Hmis : mismatched ids embeddings texts metadatas = false).
  { apply mismatched_false. repeat split; congruence. }
  repeat (split; [assumption|]).
  intros collection flatEmbeddings w2. unfold check_and_add.
  rewrite !run_bind. unfold console_log at 1 3. rewrite !run_bind, Hmis. reflexivity.
Qed.

Lemma mismatch_branch_unreachable_witness :
  mismatched (make_ids three_lines) [sample_vector; sample_vector; sample_vector]
             (map content three_lines) (make_metadatas three_lines) = false.
Proof.
  refine (proj1 (proj2 (proj2 (proj2 (proj2
            (mismatch_branch_unreachable three_lines sample_world
               (w' := with_requests sample_world
                        (map embedding_request (map content three_lines)))
               (embeddings := [sample_vector; sample_vector; sample_vector]) _)))))).
  reflexivity.
Defined.

(** ** What a step leaves alone *)

Section Preservation.
Variables (X : Type) (proj : world -> X).
Hypothesis proj_raised : forall w r, proj (with_raised w r) = proj w.
Hypothesis proj_stdout : forall w o, proj (with_stdout w o) = proj w.
Hypothesis proj_stderr : forall w e, proj (with_stderr w e) = proj w.
Hypothesis proj_requests : forall w r, proj (with_requests w r) = proj w.
Hypothesis proj_store : forall w cs calls, proj (with_store w cs calls) = proj w.

Lemma preserves_ret {A} (a : A) : preserves proj (ret a).
Proof. intros w. reflexivity. Qed.

Lemma preserves_rethrow {A} (e : exn) : preserves proj (@rethrow A e).
Proof. intros w. reflexivity. Qed.

Lemma preserves_throw {A} (e : exn) : preserves proj (@throw A e).
Proof. intros w. apply proj_raised. Qed.

Lemma preserves_lift {A} (o : outcome A) : preserves proj (lift o).
Proof. destruct o; [apply preserves_ret|apply preserves_throw]. Qed.

Lemma preserves_console_log (pieces : list log_piece) :
  preserves proj (console_log pieces).
Proof. intros w. apply proj_stdout. Qed.

Lemma preserves_console_error (label : jsstring) (e : exn) :
  preserves proj (console_error label e).
Proof. intros w. apply proj_stderr. Qed.

Lemma after_bind {A B} (m : M A) (k : A -> M B) (w : world) :
  (forall a, preserves proj (k a)) ->
  proj (snd (bind m k w)) = proj (snd (m w)).
Proof.
  intros Hk. rewrite run_bind. destruct (m w) as [[a|e] w1]; [apply Hk|reflexivity].
Qed.

Lemma after_try_catch {A} (body : M A) (h : exn -> M A) (w : world) :
  (forall e, preserves proj (h e)) ->
  proj (snd (try_catch body h w)) = proj (snd (body w)).
Proof.
  intros Hh. unfold try_catch.
  destruct (body w) as [[a|e] w1]; [reflexivity|apply Hh].
Qed.

Lemma preserves_bind {A B} (m : M A) (k : A -> M B) :
  preserves proj m -> (forall a, preserves proj (k a)) -> preserves proj (bind m k).
Proof. intros Hm Hk w. rewrite after_bind by exact Hk. apply Hm. Qed.

Lemma preserves_try_catch {A} (body : M A) (h : exn -> M A) :
  preserves proj body -> (forall e, preserves proj (h e)) ->
  preserves proj (try_catch body h).
Proof. intros Hb Hh w. rewrite after_try_catch by exact Hh. apply Hb. Qed.

Lemma preserves_forEach {A} (xs : list A) (step : A -> M unit) :
  (forall x, preserves proj (step x)) -> preserves proj (forEach xs step).
Proof.
  intros Hstep. induction xs as [|x xs IH]; simpl.
  - apply preserves_ret.
  - apply preserves_bind; [apply Hstep|intros _; exact IH].
Qed.

Lemma preserves_readdir (directory : jsstring) : preserves proj (readdir directory).
Proof. intros w. unfold readdir. apply preserves_lift. Qed.

Lemma preserves_readFile (filePath : jsstring) : preserves proj (readFile filePath).
Proof. intros w. unfold readFile. apply preserves_lift. Qed.

Lemma preserves_fetch (req : request) : preserves proj (fetch req).
Proof.
  intros w. unfold fetch.
  destruct (http_server w (length (requests w)) req); simpl.
  - now rewrite proj_raised, proj_requests.
  - apply proj_requests.
Qed.

Lemma preserves_request_embedding (text : jsstring) :
  preserves proj (request_embedding text).
Proof.
  unfold request_embedding. apply preserves_bind; [apply preserves_fetch|].
  intros [status payload]. cbn [fst snd].
  destruct (negb (response_ok status)); [apply preserves_throw|].
  apply preserves_bind; [apply preserves_lift|intros data; apply preserves_lift].
Qed.

Lemma preserves_generateEmbeddings (texts : list jsstring) :
  preserves proj (generateEmbeddings texts).
Proof.
  unfold generateEmbeddings. apply preserves_try_catch.
  - generalize (@nil jsval). induction texts as [|text texts IH]; intros acc; simpl.
    + apply preserves_ret.
    + apply preserves_bind; [apply preserves_request_embedding|intros e; apply IH].
  - intros e. apply preserves_bind; [apply preserves_console_error|].
    intros _. apply preserves_rethrow.
Qed.

Lemma preserves_chroma_request {A} (call : chroma_call) (k : M A) :
  preserves proj k -> preserves proj (chroma_request call k).
Proof.
  intros Hk w. unfold chroma_request.
  destruct (chroma_fault w (length (chroma_calls w))); simpl.
  - now rewrite proj_raised, proj_store.
  - rewrite Hk. apply proj_store.
Qed.

Lemma preserves_getCollection (name : jsstring) : preserves proj (getCollection name).
Proof.
  apply preserves_chroma_request. intros w.
  destruct (has_collection name w); [reflexivity|apply preserves_throw].
Qed.

Lemma preserves_collection_query (c : jsstring) (q : list jsval) (n : N) :
  preserves proj (collection_query c q n).
Proof. apply preserves_chroma_request. intros w. reflexivity. Qed.
End Preservation.

(** ** The query engine never throws *)

Lemma searchCode_run (query : jsstring) (nResults : option N) (w : world) :
  searchCode query nResults w =
  match searchCode_try query (match nResults with Some n => n | None => MAX_RESULTS end) w with
  | (Return matches, w1) => (Return matches, w1)
  | (Throw e, w1) =>
      (Return [],
       with_stderr w1 (stderr w1 ++ [[PStr (js "Error searching code:"); PErr e]]))
  end.
Proof.
  unfold searchCode, try_catch.
  destruct (searchCode_try _ _ w) as [[matches|e] w1]; reflexivity.
Qed.

Lemma searchCode_try_without_collection (query : jsstring) (nResults : N) (w : world) :
  has_collection COLLECTION_NAME w = false ->
  exists e, fst (searchCode_try query nResults w) = Throw e.
Proof.
  intros Hnone.
  assert (Hresp : exists e, fst (searchCode_response query nResults w) = Throw e);
    [|destruct Hresp as [e He]; exists e; unfold searchCode_try; rewrite run_bind;
      destruct (searchCode_response query nResults w) as [[results|e'] w1];
      [discriminate|simpl in *; congruence]].
  unfold searchCode_response. rewrite run_bind.
  pose proof (preserves_generateEmbeddings collections
                (fun _ _ => eq_refl) (fun _ _ => eq_refl) (fun _ _ => eq_refl)
                [query] w) as Hsame.
  destruct (generateEmbeddings [query] w) as [[arr|e] w1]; [|eexists; reflexivity].
  cbn [snd] in Hsame. rewrite run_bind.
  destruct (flatten_query_embedding arr) as [flat|e]; cbn [lift ret throw];
    [|eexists; reflexivity].
  rewrite run_bind. unfold console_log at 1. rewrite run_bind. unfold console_log at 1.
  rewrite run_bind. unfold getCollection, chroma_request. simpl.
  destruct (chroma_fault w1 (length (chroma_calls w1))); [eexists; reflexivity|].
  unfold has_collection in *. simpl. rewrite Hsame, Hnone. eexists; reflexivity.
Qed.

(** C7. [searchCode] never throws: whatever fails inside it (the embedding
    of the query, the flattening, the lookup of the collection, the query,
    the shape of the response), the error is written to the error stream
    and the empty sequence is returned; when the collection does not exist,
    the result is the empty sequence. *)
Theorem searchCode_soft_fails :
  forall (query : jsstring) (nResults : option N) (w : world),
    (exists matches, result_of (searchCode query nResults w) = Return matches) /\
    (forall e w1,
        searchCode_try query (match nResults with Some n => n | None => MAX_RESULTS end) w
        = (Throw e, w1) ->
        result_of (searchCode query nResults w) = Return [] /\
        In e (reported (world_after (searchCode query nResults w)))) /\
    (has_collection COLLECTION_NAME w = false ->
     result_of (searchCode query nResults w) = Return []).
Proof.
  intros query nResults w. unfold result_of, world_after.
  rewrite searchCode_run. split; [|split].
  - destruct (searchCode_try _ _ w) as [[matches|e] w1]; eexists; reflexivity.
  - intros e w1 Hrun. rewrite Hrun. split; [reflexivity|].
    cbn [snd]. rewrite reported_app. apply in_or_app. right. now left.
  - intros Hnone.
    destruct (searchCode_try_without_collection query
                (match nResults with Some n => n | None => MAX_RESULTS end) w Hnone)
      as [e He].
    destruct (searchCode_try _ _ w) as [[matches|e'] w1]; [discriminate|reflexivity].
Qed.

Lemma searchCode_soft_fails_witness :
  result_of (searchCode DEMO_QUERY None sample_world) = Return [] /\
  In (External (js "collection does not exist"))
     (reported (world_after (searchCode DEMO_QUERY None sample_world))).
Proof.
  destruct (searchCode_soft_fails DEMO_QUERY None sample_world) as (_ & Hany & Hnone).
  split.
  - apply Hnone. reflexivity.
  - apply (Hany (External (js "collection does not exist"))
                (snd (searchCode_try DEMO_QUERY MAX_RESULTS sample_world))).
    reflexivity.
Defined.

(** ** The matches of a response *)

Lemma get_prop_not_nullish (v : jsval) (name : jsstring) :
  is_nullish v = false -> get_prop v name = Return (property v name).
Proof. destruct v; simpl; intros H; try discriminate; reflexivity. Qed.

Lemma get_index_not_nullish (v : jsval) (i : nat) :
  is_nullish v = false -> get_index v i = Return (element v i).
Proof. destruct v; simpl; intros H; try discriminate; reflexivity. Qed.

Lemma make_match_zips (results documents0 distances0 : jsval) :
  (let? d := get_prop results (js "documents") in get_index d 0) = Return documents0 ->
  (let? d := get_prop results (js "distances") in get_index d 0) = Return distances0 ->
  is_nullish documents0 = false ->
  is_nullish distances0 = false ->
  forall (metadatas0 : list jsval) (start : nat),
    Forall (fun m => is_nullish m = false) metadatas0 ->
    mapi_raising_from (make_match results) start metadatas0
    = Return (mapi_from (match_at documents0 distances0) start metadatas0).
Proof.
  intros Hdocs Hdist Hd Hs metadatas0.
  induction metadatas0 as [|metadata rest IH]; intros start Hnn; [reflexivity|].
  inversion Hnn as [|? ? Hm Hrest]; subst.
  cbn [mapi_raising_from mapi_from]. rewrite (IH (S start) Hrest).
  unfold make_match.
  rewrite !get_prop_not_nullish by assumption. cbn [and_then].
  destruct (get_prop results (js "documents")) as [d|e]; [|discriminate].
  cbn [and_then] in *. rewrite Hdocs. cbn [and_then].
  rewrite get_index_not_nullish by assumption. cbn [and_then].
  destruct (get_prop results (js "distances")) as [s|e]; [|discriminate].
  cbn [and_then] in *. rewrite Hdist. cbn [and_then].
  rewrite get_index_not_nullish by assumption. reflexivity.
Qed.

Lemma format_results_zips (results : jsval) (metadatas0 : list jsval)
    (documents0 distances0 : jsval) :
  store_response results metadatas0 documents0 distances0 ->
  format_results results = Return (mapi (match_at documents0 distances0) metadatas0).
Proof.
  intros (Hmeta & Hdocs & Hdist & Hnn & Hd & Hs). unfold format_results.
  destruct (get_prop results (js "metadatas")) as [m|e]; [|discriminate].
  cbn [and_then] in *. rewrite Hmeta. cbn [and_then].
  unfold mapi_raising, mapi. now apply make_match_zips.
Qed.

(** C8. When the store answers the query, [searchCode] returns one match
    per element of the first metadata array of the response, in the order
    of that array: the match at position [i] has the file and the line
    number of the metadata at [i], the document at [i] and the distance at
    [i].  Nothing is sorted again. *)
Theorem searchCode_zips_response :
  forall (query : jsstring) (nResults : option N) (w w1 : world) (results : jsval)
         (metadatas0 : list jsval) (documents0 distances0 : jsval),
    searchCode_response query (match nResults with Some n => n | None => MAX_RESULTS end) w
    = (Return results, w1) ->
    store_response results metadatas0 documents0 distances0 ->
    searchCode query nResults w
    = (Return (mapi (match_at documents0 distances0) metadatas0), w1) /\
    length (mapi (match_at documents0 distances0) metadatas0) = length metadatas0 /\
    forall i metadata,
      nth_error metadatas0 i = Some metadata ->
      nth_error (mapi (match_at documents0 distances0) metadatas0) i
      = Some {| match_file := property metadata (js "file");
                match_lineNumber := property metadata (js "lineNumber");
                match_content := element documents0 i;
                match_distance := element distances0 i |}.
Proof.
  intros query nResults w w1 results metadatas0 documents0 distances0 Hresp Hshape.
  split; [|split].
  - rewrite searchCode_run. unfold searchCode_try.
    rewrite run_bind, Hresp, run_bind, (format_results_zips Hshape). reflexivity.
  - apply length_mapi.
  - intros i metadata Hnth. unfold mapi. rewrite nth_error_mapi_from, Hnth. reflexivity.
Qed.

Lemma searchCode_zips_response_witness :
  result_of (searchCode DEMO_QUERY None unsorted_world)
  = Return [ {| match_file := JStr (js "a.js"); match_lineNumber := num_of_N 1;
                match_content := JStr (js "one"); match_distance := JNum (1 # 10) |};
             {| match_file := JStr (js "a.js"); match_lineNumber := num_of_N 3;
                match_content := JStr (js "two"); match_distance := JNum (1 # 20) |};
             {| match_file := JStr (js "b.py"); match_lineNumber := num_of_N 7;
                match_content := JStr (js "three"); match_distance := JNum (3 # 10) |} ].
Proof.
  destruct (searchCode_zips_response DEMO_QUERY None unsorted_world
              (w1 := snd (searchCode_response DEMO_QUERY MAX_RESULTS unsorted_world))
              (results := unsorted_answer)
              (metadatas0 := [line_metadata "a.js" 1; line_metadata "a.js" 3;
                              line_metadata "b.py" 7])
              (documents0 := JArr [JStr (js "one"); JStr (js "two"); JStr (js "three")])
              (distances0 := JArr [JNum (1 # 10); JNum (1 # 20); JNum (3 # 10)]))
    as (Hrun & _ & _).
  - reflexivity.
  - repeat split. repeat constructor.
  - unfold result_of. rewrite Hrun. reflexivity.
Defined.

(** ** Indexing never throws *)

Lemma storeCodeInVectorDB_run (w : world) :
  storeCodeInVectorDB w =
  match storeCodeInVectorDB_try w with
  | (Return _, w1) => (Return tt, w1)
  | (Throw e, w1) =>
      (Return tt,
       with_stderr w1 (stderr w1 ++ [[PStr (js "Error storing code in vector DB:"); PErr e]]))
  end.
Proof.
  unfold storeCodeInVectorDB, try_catch.
  destruct (storeCodeInVectorDB_try w) as [[[]|e] w1]; reflexivity.
Qed.

Lemma generateEmbeddings_single_request (query : jsstring) (w : world) :
  requests (snd (generateEmbeddings [query] w)) = requests w ++ [embedding_request query].
Proof.
  unfold generateEmbeddings.
  rewrite (after_try_catch (proj := requests)).
  - cbn [generateEmbeddings_loop].
    rewrite (after_bind (proj := requests)) by (intros e; apply preserves_ret).
    apply request_embedding_run.
  - intros e. apply preserves_bind; [|intros _; apply preserves_rethrow].
    apply preserves_console_error. reflexivity.
Qed.

Lemma preserves_requests_show_match (m : Match) : preserves requests (show_match m).
Proof.
  unfold show_match.
  destruct (match_distance m);
    first [apply preserves_console_log; reflexivity | apply preserves_throw; reflexivity].
Qed.

Lemma demonstration_requests (w : world) :
  requests (snd (demonstration w)) = requests w ++ [embedding_request DEMO_QUERY].
Proof.
  unfold demonstration. cbv zeta. rewrite run_bind. unfold console_log at 1.
  rewrite (after_bind (proj := requests)).
  2:{ intros matches. destruct (length_N matches =? 0)%N.
      - apply preserves_console_log. reflexivity.
      - apply preserves_bind; [apply preserves_console_log; reflexivity|].
        intros _. apply preserves_forEach. apply preserves_requests_show_match. }
  unfold searchCode. rewrite (after_try_catch (proj := requests)).
  2:{ intros e. apply preserves_bind; [|intros _; apply preserves_ret].
      apply preserves_console_error. reflexivity. }
  unfold searchCode_try. rewrite (after_bind (proj := requests)).
  2:{ intros results. apply preserves_bind; [|intros ms; apply preserves_ret].
      apply preserves_lift. reflexivity. }
  unfold searchCode_response. rewrite (after_bind (proj := requests)).
  2:{ intros arr. apply preserves_bind; [apply preserves_lift; reflexivity|].
      intros flat. apply preserves_bind; [apply preserves_console_log; reflexivity|].
      intros _. apply preserves_bind; [apply preserves_console_log; reflexivity|].
      intros _. apply preserves_bind; [apply preserves_getCollection; reflexivity|].
      intros c. apply preserves_collection_query; reflexivity. }
  rewrite generateEmbeddings_single_request. reflexivity.
Qed.

(** C10. [storeCodeInVectorDB] always returns normally: an error raised in
    its [try] block, whichever it is, ends up on the error stream and
    nowhere else; so [main] always goes on to the demonstration, which
    always sends the query to the embedding endpoint. *)
Theorem storeCodeInVectorDB_never_throws :
  forall w : world,
    result_of (storeCodeInVectorDB w) = Return tt /\
    (forall e w1,
        storeCodeInVectorDB_try w = (Throw e, w1) ->
        storeCodeInVectorDB w
        = (Return tt,
           with_stderr w1
             (stderr w1 ++ [[PStr (js "Error storing code in vector DB:"); PErr e]]))) /\
    exists w1,
      (console_log [PStr (js "Indexing code files...")] ;; storeCodeInVectorDB) w
      = (Return tt, w1) /\
      main w = demonstration w1 /\
      requests (world_after (main w)) = requests w1 ++ [embedding_request DEMO_QUERY].
Proof.
  intros w. split; [|split].
  - unfold result_of. rewrite storeCodeInVectorDB_run.
    destruct (storeCodeInVectorDB_try w) as [[[]|e] w1]; reflexivity.
  - intros e w1 Hrun. rewrite storeCodeInVectorDB_run, Hrun. reflexivity.
  - assert (Hstore : exists w1,
               storeCodeInVectorDB
                 (with_stdout w (stdout w ++ [[PStr (js "Indexing code files...")]]))
               = (Return tt, w1)).
    { rewrite storeCodeInVectorDB_run.
      destruct (storeCodeInVectorDB_try _) as [[[]|e] w1]; eexists; reflexivity. }
    destruct Hstore as [w1 Hstore]. exists w1.
    assert (Hmain : main w = demonstration w1).
    { unfold main. rewrite run_bind. unfold console_log at 1.
      rewrite run_bind, Hstore. reflexivity. }
    split; [|split].
    + rewrite run_bind. unfold console_log at 1. exact Hstore.
    + exact Hmain.
    + unfold world_after. rewrite Hmain. apply demonstration_requests.
Qed.

Lemma storeCodeInVectorDB_never_throws_witness :
  result_of (storeCodeInVectorDB flaky_world) = Return tt /\
  reported (world_after (storeCodeInVectorDB flaky_world))
  = [http_error 503; http_error 503] /\
  add_calls (world_after (storeCodeInVectorDB flaky_world)) = [].
Proof.
  destruct (storeCodeInVectorDB_never_throws flaky_world) as (Hres & Hcaught & _).
  split; [exact Hres|].
  unfold world_after.
  rewrite (Hcaught (http_error 503) (snd (storeCodeInVectorDB_try flaky_world)) eq_refl).
  split; reflexivity.
Defined.

(** ** Every error is reported *)





























Lemma run_main_returns (w : world) : result_of (run_main w) = Return tt.
Proof.
  unfold result_of, run_main, try_catch.
  destruct (main w) as [[[]|e] w1]; reflexivity.
Qed.




(** * Further properties *)

(** ** Strings *)

Lemma split_newline_nonempty (s : jsstring) : split_newline s <> [].
Proof.
  induction s as [|c s IH]; simpl; [discriminate|].
  destruct (c =? 10)%N; [discriminate|].
  destruct (split_newline s); [contradiction|discriminate].
Qed.

(** X1. The newline split loses nothing: joining the pieces with newlines
    gives the text back, no piece holds a newline, and there is one piece
    more than there are newlines in the text. *)
Theorem split_newline_round_trip :
  forall text : jsstring,
    join_newline (split_newline text) = text /\
    Forall (fun piece => ~ In 10%N piece) (split_newline text) /\
    length (split_newline text) = S (count_occ N.eq_dec text 10%N).
Proof.
  induction text as [|c text (IHjoin & IHnone & IHlen)]; simpl.
  - repeat split. constructor; [tauto|constructor].
  - pose proof (split_newline_nonempty text) as Hne.
    destruct (N.eqb_spec c 10) as [->|Hc].
    + destruct (N.eq_dec 10 10) as [_|Hbad]; [|contradiction].
      split; [|split].
      * destruct (split_newline text) as [|p ps]; [contradiction|].
        simpl in *. now rewrite IHjoin.
      * constructor; [tauto|exact IHnone].
      * simpl. now rewrite IHlen.
    + destruct (N.eq_dec c 10) as [Hbad|_]; [congruence|].
      destruct (split_newline text) as [|p ps]; [contradiction|].
      split; [|split].
      * simpl in *. destruct ps; simpl in *; now rewrite <- IHjoin.
      * inversion IHnone as [|? ? Hp Hps]; subst. constructor; [|exact Hps].
        simpl. intros [H|H]; [congruence|contradiction].
      * exact IHlen.
Qed.

Lemma startsWith_prefix (p s : jsstring) :
  startsWith s p = true <-> exists rest, s = p ++ rest.
Proof.
  revert s. induction p as [|a p IH]; intros s; simpl.
  - split; [intros _; now exists s|intros _; destruct s; reflexivity].
  - destruct s as [|b s].
    + split; [discriminate|intros [rest H]; discriminate].
    + simpl. rewrite andb_true_iff, N.eqb_eq, IH. split.
      * intros [-> [rest ->]]. now exists rest.
      * intros [rest H]. inversion H; subst. split; [reflexivity|now exists rest].
Qed.

Lemma endsWith_suffix (s suffix : jsstring) :
  endsWith s suffix = true <-> exists stem, s = stem ++ suffix.
Proof.
  unfold endsWith. rewrite startsWith_prefix. split.
  - intros [rest H]. exists (rev rest).
    rewrite <- (rev_involutive s), H, rev_app_distr, rev_involutive. reflexivity.
  - intros [stem ->]. exists (rev stem). apply rev_app_distr.
Qed.

(** X2. A file is read exactly when its name is some stem, possibly empty,
    followed by [.js], [.py] or [.txt]. *)
Theorem accepted_extension_iff :
  forall file : jsstring,
    accepted_extension file = true <->
    exists stem,
      file = stem ++ js ".js" \/ file = stem ++ js ".py" \/ file = stem ++ js ".txt".
Proof.
  intros file. unfold accepted_extension.
  rewrite !orb_true_iff, !endsWith_suffix. split.
  - intros [[[stem H]|[stem H]]|[stem H]]; exists stem; tauto.
  - intros [stem [H|[H|H]]]; [left; left|left; right|right]; now exists stem.
Qed.

Lemma trimStart_split (s : jsstring) :
  exists pre, s = pre ++ trimStart s /\ blank pre.
Proof.
  induction s as [|c s (pre & Hs & Hpre)]; simpl.
  - exists []. split; [reflexivity|constructor].
  - destruct (is_js_whitespace c) eqn:Hc.
    + exists (c :: pre). split; [simpl; now rewrite <- Hs|now constructor].
    + exists []. split; [reflexivity|constructor].
Qed.

Lemma trimStart_head (s : jsstring) (c : N) (rest : jsstring) :
  trimStart s = c :: rest -> is_js_whitespace c = false.
Proof.
  induction s as [|a s IH]; simpl; [discriminate|].
  destruct (is_js_whitespace a) eqn:Ha; [exact IH|].
  intros H. inversion H; subst. exact Ha.
Qed.

Lemma trimStart_fixed (s : jsstring) :
  (forall c rest, s = c :: rest -> is_js_whitespace c = false) -> trimStart s = s.
Proof.
  destruct s as [|c s]; [reflexivity|]. intros H. simpl.
  now rewrite (H c s eq_refl).
Qed.

Lemma trimStart_blank (s : jsstring) : trimStart s = [] <-> blank s.
Proof.
  induction s as [|c s IH]; simpl.
  - split; [constructor|reflexivity].
  - destruct (is_js_whitespace c) eqn:Hc.
    + rewrite IH. split; [now constructor|intros H; now inversion H].
    + split; [discriminate|]. intros H. inversion H; congruence.
Qed.

Lemma trimEnd_split (s : jsstring) :
  exists post, s = trimEnd s ++ post /\ blank post.
Proof.
  unfold trimEnd. destruct (trimStart_split (rev s)) as (pre & Hs & Hpre).
  exists (rev pre). split.
  - rewrite <- (rev_involutive s) at 1. rewrite Hs at 1. apply rev_app_distr.
  - unfold blank in *. apply Forall_forall. intros c Hc.
    rewrite Forall_forall in Hpre. apply Hpre. now apply in_rev.
Qed.

Lemma trimEnd_last (s : jsstring) (c : N) (init : jsstring) :
  trimEnd s = init ++ [c] -> is_js_whitespace c = false.
Proof.
  unfold trimEnd. intros H.
  apply (f_equal (@rev N)) in H. rewrite rev_involutive, rev_app_distr in H.
  simpl in H. exact (trimStart_head _ H).
Qed.

Lemma trimEnd_fixed (s : jsstring) :
  (forall c init, s = init ++ [c] -> is_js_whitespace c = false) -> trimEnd s = s.
Proof.
  intros H. unfold trimEnd. rewrite trimStart_fixed; [apply rev_involutive|].
  intros c rest Hrev. apply (H c (rev rest)).
  rewrite <- (rev_involutive s), Hrev. reflexivity.
Qed.

Lemma blank_app (a b : jsstring) : blank (a ++ b) <-> blank a /\ blank b.
Proof. apply Forall_app. Qed.

Lemma trim_split (line : jsstring) :
  exists pre post, line = pre ++ trim line ++ post /\ blank pre /\ blank post.
Proof.
  unfold trim. destruct (trimStart_split line) as (pre & Hs & Hpre).
  destruct (trimEnd_split (trimStart line)) as (post & Ht & Hpost).
  exists pre, post. split; [|split; assumption].
  rewrite <- Ht. exact Hs.
Qed.

Lemma trim_last (line : jsstring) (c : N) (init : jsstring) :
  trim line = init ++ [c] -> is_js_whitespace c = false.
Proof. apply trimEnd_last. Qed.

Lemma trim_head (line : jsstring) (c : N) (rest : jsstring) :
  trim line = c :: rest -> is_js_whitespace c = false.
Proof.
  unfold trim. intros H.
  destruct (trimEnd_split (trimStart line)) as (post & Ht & _).
  rewrite H in Ht. simpl in Ht. exact (trimStart_head _ Ht).
Qed.

Lemma trim_idempotent (line : jsstring) : trim (trim line) = trim line.
Proof.
  unfold trim at 1. rewrite (trimStart_fixed (@trim_head line)).
  apply trimEnd_fixed. apply trim_last.
Qed.

Lemma trim_empty_iff (line : jsstring) : trim line = [] <-> blank line.
Proof.
  split.
  - intros H. destruct (trim_split line) as (pre & post & Hl & Hpre & Hpost).
    rewrite H in Hl. simpl in Hl. rewrite Hl. now apply blank_app.
  - intros H. unfold trim. apply (proj2 (trimStart_blank line)) in H.
    rewrite H. reflexivity.
Qed.

(** X3. What [trim] does to a line: it removes a run of white space at each
    end and nothing else; what is left neither starts nor ends with white
    space; trimming twice changes nothing; and the result is empty exactly
    when the line is white space only, which is when the line extractor
    drops it. *)
Theorem trim_spec :
  forall line : jsstring,
    (exists pre post, line = pre ++ trim line ++ post /\ blank pre /\ blank post) /\
    (forall c rest, trim line = c :: rest -> is_js_whitespace c = false) /\
    (forall c init, trim line = init ++ [c] -> is_js_whitespace c = false) /\
    trim (trim line) = trim line /\
    (trim line = [] <-> blank line) /\
    (truthy_string (trim line) = false <-> blank line).
Proof.
  intros line.
  split; [apply trim_split|]. split; [apply trim_head|]. split; [apply trim_last|].
  split; [apply trim_idempotent|]. split; [apply trim_empty_iff|].
  rewrite <- trim_empty_iff. destruct (trim line); simpl; split; congruence.
Qed.

(** ** The line extractor *)


(** X5. Files without an accepted extension are never read: a directory
    that holds only such files gives no record, no error and no change,
    whether or not the files could be read. *)
Theorem readCodeFiles_skips_other_extensions :
  forall (directory : jsstring) (w : world) (files : list jsstring),
    fs_readdir w directory = Return files ->
    (forall f, In f files -> accepted_extension f = false) ->
    readCodeFiles directory w = (Return [], w).
Proof.
  intros directory w files Hdir Hnone. rewrite readCodeFiles_run, Hdir.
  assert (Hfilter : filter accepted_extension files = []).
  { clear Hdir. induction files as [|f files IH]; [reflexivity|]. simpl.
    rewrite (Hnone f (or_introl eq_refl)). apply IH.
    intros g Hg. apply Hnone. now right. }
  assert (Herr : first_read_error (fs_readFile w) (max_arguments w) directory files = None).
  { clear Hdir Hfilter. induction files as [|f files IH]; [reflexivity|]. simpl.
    rewrite (Hnone f (or_introl eq_refl)). apply IH.
    intros g Hg. apply Hnone. now right. }
  rewrite Herr, Hfilter. reflexivity.
Qed.

Lemma readCodeFiles_skips_other_extensions_witness :
  readCodeFiles CODE_DIR docs_only_world = (Return [], docs_only_world).
Proof.
  apply (readCodeFiles_skips_other_extensions CODE_DIR docs_only_world
           (files := [js "notes.md"; js "README"; js "main.jsx"]) eq_refl).
  intros f [<-|[<-|[<-|[]]]]; reflexivity.
Defined.

Lemma file_records_invariant (f text : jsstring) (r : LineRecord) :
  In r (file_records f text) ->
  content r <> [] /\ trim (content r) = content r /\
  (1 <= lineNumber r <= length_N (split_newline text))%N /\ file r = f.
Proof.
  intros Hin. apply file_records_In in Hin.
  destruct Hin as (i & line & Hline & Hne & ->). simpl.
  split; [exact Hne|]. split; [apply trim_idempotent|]. split; [|reflexivity].
  assert (i < length (split_newline text)) by (apply nth_error_Some; congruence).
  unfold length_N. lia.
Qed.

(** X6. Every record [readCodeFiles] returns, in any world, is well formed:
    its content is not empty and has no white space at either end, its line
    number is at least 1, and its file has an accepted extension. *)
Theorem readCodeFiles_records_well_formed :
  forall (directory : jsstring) (w : world) (records : list LineRecord),
    result_of (readCodeFiles directory w) = Return records ->
    Forall (fun r =>
              content r <> [] /\ trim (content r) = content r /\
              (1 <= lineNumber r)%N /\ accepted_extension (file r) = true)
           records.
Proof.
  intros directory w records. unfold result_of. rewrite readCodeFiles_run.
  destruct (fs_readdir w directory) as [files|e].
  2:{ simpl. intros H. inversion H. constructor. }
  destruct (first_read_error (fs_readFile w) (max_arguments w) directory files).
  { simpl. intros H. inversion H. constructor. }
  simpl. intros H. inversion H; subst records. clear H.
  apply Forall_forall. intros r Hr. apply in_flat_map in Hr.
  destruct Hr as (f & Hf & Hr). apply filter_In in Hf. destruct Hf as [_ Hacc].
  destruct (file_records_invariant _ _ _ Hr) as (Hne & Htrim & [Hone _] & Hfile).
  rewrite Hfile. repeat split; assumption.
Qed.

Lemma readCodeFiles_records_well_formed_witness :
  Forall (fun r =>
            content r <> [] /\ trim (content r) = content r /\
            (1 <= lineNumber r)%N /\ accepted_extension (file r) = true)
         [ {| content := js "function factorial(n) {"; file := js "a.js"; lineNumber := 1 |};
           {| content := js "return 1;"; file := js "a.js"; lineNumber := 3 |};
           {| content := js "}"; file := js "a.js"; lineNumber := 4 |} ].
Proof.
  exact (readCodeFiles_records_well_formed CODE_DIR sample_world eq_refl).
Defined.

Lemma mapi_from_line_numbers (f : jsstring) (lines : list jsstring) (start : nat) :
  StronglySorted N.lt
    (map lineNumber
         (filter (fun line => truthy_string (content line))
                 (mapi_from (fun line index =>
                               {| content := trim line; file := f;
                                  lineNumber := N.of_nat index + 1 |})
                            start lines))) /\
  Forall (fun n => (N.of_nat start < n)%N)
    (map lineNumber
         (filter (fun line => truthy_string (content line))
                 (mapi_from (fun line index =>
                               {| content := trim line; file := f;
                                  lineNumber := N.of_nat index + 1 |})
                            start lines))).
Proof.
  revert start. induction lines as [|line lines IH]; intros start; simpl.
  - split; constructor.
  - destruct (IH (S start)) as [Hsorted Hbound].
    assert (Hweaker : Forall (fun n => (N.of_nat start < n)%N)
              (map lineNumber
                 (filter (fun line => truthy_string (content line))
                    (mapi_from (fun line index =>
                                  {| content := trim line; file := f;
                                     lineNumber := N.of_nat index + 1 |})
                               (S start) lines)))).
    { eapply Forall_impl; [|exact Hbound]. simpl. intros n Hn. lia. }
    destruct (truthy_string (trim line)); simpl.
    + split.
      * constructor; [exact Hsorted|].
        eapply Forall_impl; [|exact Hbound]. simpl. intros n Hn. lia.
      * constructor; [lia|exact Hweaker].
    + split; assumption.
Qed.

(** X7. The records of a file come in the order of its lines: their line
    numbers go up strictly, so no line is reported twice, and none exceeds
    the number of lines of the file. *)
Theorem file_records_in_line_order :
  forall file text : jsstring,
    StronglySorted N.lt (map lineNumber (file_records file text)) /\
    NoDup (map lineNumber (file_records file text)) /\
    Forall (fun r => (1 <= lineNumber r <= length_N (split_newline text))%N)
           (file_records file text).
Proof.
  intros f text.
  assert (Hsorted : StronglySorted N.lt (map lineNumber (file_records f text))).
  { unfold file_records, numbered_lines, mapi. apply mapi_from_line_numbers. }
  split; [exact Hsorted|]. split.
  - induction Hsorted as [|n ns Hns IH Hall]; constructor; [|exact IH].
    intros Hin. rewrite Forall_forall in Hall. specialize (Hall n Hin). lia.
  - apply Forall_forall. intros r Hr.
    now destruct (file_records_invariant _ _ _ Hr) as (_ & _ & H & _).
Qed.

(** ** The embedding client, whatever the endpoint does *)

Lemma request_embedding_exchange (text : jsstring) (w : world) :
  request_embedding text w =
  match exchange_result (http_server w (length (requests w)) (embedding_request text)) with
  | Return e => (Return e, with_requests w (requests w ++ [embedding_request text]))
  | Throw e =>
      (Throw e,
       with_raised (with_requests w (requests w ++ [embedding_request text]))
                   (raised w ++ [e]))
  end.
Proof.
  unfold request_embedding, exchange_result. rewrite run_bind. unfold fetch.
  destruct (http_server w (length (requests w)) (embedding_request text))
    as [e|status payload]; [reflexivity|].
  cbn [fst snd]. destruct (response_ok status); cbn [negb]; [|reflexivity].
  rewrite run_bind. destruct payload as [data|e]; cbn [lift ret throw and_then];
    [|reflexivity].
  destruct (first_embedding data); reflexivity.
Qed.

Lemma generateEmbeddings_loop_run (texts : list jsstring) :
  forall (acc : list jsval) (w : world),
  exists n,
    n <= length texts /\
    requests (snd (generateEmbeddings_loop texts acc w))
    = requests w ++ map embedding_request (firstn n texts) /\
    stderr (snd (generateEmbeddings_loop texts acc w)) = stderr w /\
    (forall k text e,
        k < n ->
        nth_error texts k = Some text ->
        exchange_result (http_server w (length (requests w) + k) (embedding_request text))
        = Throw e ->
        n = S k /\ fst (generateEmbeddings_loop texts acc w) = Throw e) /\
    match fst (generateEmbeddings_loop texts acc w) with
    | Return embeddings =>
        n = length texts /\
        length embeddings = length acc + length texts /\
        raised (snd (generateEmbeddings_loop texts acc w)) = raised w
    | Throw e =>
        1 <= n /\
        raised (snd (generateEmbeddings_loop texts acc w)) = raised w ++ [e]
    end.
Proof.
  induction texts as [|text texts IH]; intros acc w.
  - exists 0. simpl. split; [lia|]. split; [now rewrite app_nil_r|].
    split; [reflexivity|]. split; [intros; lia|]. repeat split. lia.
  - cbn [generateEmbeddings_loop]. rewrite run_bind, request_embedding_exchange.
    destruct (exchange_result
                (http_server w (length (requests w)) (embedding_request text)))
      as [embedding|e] eqn:Hex.
    + destruct (IH (acc ++ [embedding])
                   (with_requests w (requests w ++ [embedding_request text])))
        as (n & Hn & Hreq & Herr & Hbad & Hend).
      exists (S n). split; [simpl; lia|]. split; [|split; [|split]].
      * rewrite Hreq. simpl. now rewrite <- app_assoc.
      * rewrite Herr. reflexivity.
      * intros k text' e Hk Hnth Hthrow. destruct k as [|k].
        { rewrite Nat.add_0_r in Hthrow. simpl in Hnth. inversion Hnth; subst text'.
          congruence. }
        simpl in Hnth.
        destruct (Hbad k text' e) as [-> Hres];
          [lia|exact Hnth| |split; [reflexivity|exact Hres]].
        simpl. rewrite length_app. simpl.
        replace (length (requests w) + 1 + k) with (length (requests w) + S k) by lia.
        exact Hthrow.
      * destruct (fst (generateEmbeddings_loop texts (acc ++ [embedding]) _))
          as [embeddings|e].
        { destruct Hend as (-> & Hlen & Hraised). repeat split.
          - rewrite Hlen, length_app. simpl. lia.
          - rewrite Hraised. reflexivity. }
        { destruct Hend as [Hone Hraised]. split; [lia|].
          rewrite Hraised. reflexivity. }
    + exists 1. simpl. split; [lia|]. split; [reflexivity|]. split; [reflexivity|].
      split; [|split; [lia|reflexivity]].
      intros k text' e' Hk Hnth Hthrow.
      assert (k = 0) by lia. subst k. simpl in Hnth. inversion Hnth; subst text'.
      rewrite Nat.add_0_r in Hthrow. split; [reflexivity|congruence].
Qed.

(** X8. What a run of [generateEmbeddings] leaves behind, whatever the
    endpoint does.  It sends the requests of a prefix of the texts, one
    each and in order, and touches neither the store nor the standard
    output.  If it returns, every text had its request, there is one
    embedding per text and nothing was raised or written to the error
    stream.  If it throws, at least one request was sent and the error
    thrown is the only one raised and the only one written, once. *)
Theorem generateEmbeddings_footprint :
  forall (texts : list jsstring) (w : world),
  exists n,
    n <= length texts /\
    requests (world_after (generateEmbeddings texts w))
    = requests w ++ map embedding_request (firstn n texts) /\
    stdout (world_after (generateEmbeddings texts w)) = stdout w /\
    collections (world_after (generateEmbeddings texts w)) = collections w /\
    chroma_calls (world_after (generateEmbeddings texts w)) = chroma_calls w /\
    match result_of (generateEmbeddings texts w) with
    | Return embeddings =>
        n = length texts /\
        length embeddings = length texts /\
        raised (world_after (generateEmbeddings texts w)) = raised w /\
        stderr (world_after (generateEmbeddings texts w)) = stderr w
    | Throw e =>
        1 <= n /\
        raised (world_after (generateEmbeddings texts w)) = raised w ++ [e] /\
        stderr (world_after (generateEmbeddings texts w))
        = stderr w ++ [[PStr (js "Error generating embeddings:"); PErr e]]
    end.
Proof.
  intros texts w. unfold world_after, result_of.
  pose proof (preserves_generateEmbeddings stdout
                (fun _ _ => eq_refl) (fun _ _ => eq_refl) (fun _ _ => eq_refl)
                texts w) as Hout.
  pose proof (preserves_generateEmbeddings collections
                (fun _ _ => eq_refl) (fun _ _ => eq_refl) (fun _ _ => eq_refl)
                texts w) as Hcol.
  pose proof (preserves_generateEmbeddings chroma_calls
                (fun _ _ => eq_refl) (fun _ _ => eq_refl) (fun _ _ => eq_refl)
                texts w) as Hcalls.
  rewrite generateEmbeddings_run in *.
  destruct (generateEmbeddings_loop_run texts [] w) as (n & Hn & Hreq & Herr & _ & Hend).
  exists n.
  destruct (generateEmbeddings_loop texts [] w) as [[embeddings|e] w1];
    cbn [fst snd] in *.
  - destruct Hend as (-> & Hlen & Hraised). repeat split; assumption.
  - destruct Hend as [Hone Hraised]. simpl. rewrite Herr. repeat split; assumption.
Qed.

(** X9. The first exchange that fails ends the batch, whatever the failure:
    a connection that fails, a non-success status, a body that does not
    parse, a body with no first embedding.  [generateEmbeddings] throws the
    error of that exchange as it is, and the request of that exchange is
    the last one sent. *)
Theorem generateEmbeddings_stops_at_first_failure :
  forall (texts : list jsstring) (w : world) (k : nat) (text : jsstring) (e : exn),
    nth_error texts k = Some text ->
    length (requests w) + k < length (requests (world_after (generateEmbeddings texts w))) ->
    exchange_result (http_server w (length (requests w) + k) (embedding_request text))
    = Throw e ->
    result_of (generateEmbeddings texts w) = Throw e /\
    requests (world_after (generateEmbeddings texts w))
    = requests w ++ map embedding_request (firstn (S k) texts).
Proof.
  intros texts w k text e Hnth Hissued Hex.
  unfold result_of, world_after in *. rewrite generateEmbeddings_run in *.
  destruct (generateEmbeddings_loop_run texts [] w) as (n & Hn & Hreq & _ & Hbad & _).
  assert (Hk : k < n).
  { destruct (generateEmbeddings_loop texts [] w) as [[embeddings|e'] w1];
      cbn [fst snd] in *; simpl in Hissued; rewrite Hreq in Hissued;
      rewrite length_app, length_map, length_firstn in Hissued; lia. }
  destruct (Hbad k text e Hk Hnth Hex) as [-> Hthrow].
  destruct (generateEmbeddings_loop texts [] w) as [[embeddings|e'] w1];
    cbn [fst snd] in *; [discriminate|].
  inversion Hthrow; subst e'. split; [reflexivity|exact Hreq].
Qed.

Lemma generateEmbeddings_stops_at_first_failure_witness :
  result_of (generateEmbeddings [js "a"; js "b"; js "c"; js "d"] unplugged_world)
  = Throw (External (js "ECONNREFUSED")) /\
  requests (world_after (generateEmbeddings [js "a"; js "b"; js "c"; js "d"] unplugged_world))
  = [embedding_request (js "a"); embedding_request (js "b"); embedding_request (js "c")].
Proof.
  apply (generateEmbeddings_stops_at_first_failure
           [js "a"; js "b"; js "c"; js "d"] unplugged_world 2 (text := js "c")).
  - reflexivity.
  - vm_compute. lia.
  - reflexivity.
Defined.

(** ** Reading and flattening an embedding *)

(** X10. Which bodies [generateEmbeddings] can read: an array gives its
    first element, [undefined] when it is empty; anything else gives the
    first element of its [embeddings] property.  Reading raises exactly
    when the body is [null] or [undefined], or is not an array and has no
    [embeddings] property that can be indexed. *)
Theorem first_embedding_reads :
  (forall batch : list jsval,
      first_embedding (JArr batch) = Return (nth 0 batch JUndefined)) /\
  (forall data : jsval,
      isArray data = false -> is_nullish data = false ->
      is_nullish (property data (js "embeddings")) = false ->
      first_embedding data = Return (element (property data (js "embeddings")) 0)) /\
  (forall data : jsval,
      (exists e, first_embedding data = Throw e) <->
      is_nullish data = true \/
      (isArray data = false /\ is_nullish (property data (js "embeddings")) = true)).
Proof.
  split; [reflexivity|]. split.
  - intros data Harr Hnn Hemb. unfold first_embedding. rewrite Harr.
    rewrite get_prop_not_nullish by assumption. cbn [and_then].
    now apply get_index_not_nullish.
  - intros data. unfold first_embedding. split.
    + intros [e He]. destruct (is_nullish data) eqn:Hnn; [now left|right].
      destruct (isArray data) eqn:Harr.
      { destruct data; discriminate. }
      split; [reflexivity|].
      rewrite get_prop_not_nullish in He by assumption. cbn [and_then] in He.
      destruct (is_nullish (property data (js "embeddings"))) eqn:Hemb; [reflexivity|].
      rewrite get_index_not_nullish in He by assumption. discriminate.
    + intros [Hnn|[Harr Hemb]].
      * destruct data; try discriminate; eexists; reflexivity.
      * rewrite Harr. destruct (is_nullish data) eqn:Hnn.
        { destruct data; try discriminate; eexists; reflexivity. }
        rewrite get_prop_not_nullish by assumption. cbn [and_then].
        destruct (property data (js "embeddings")); try discriminate;
          eexists; reflexivity.
Qed.

Lemma first_embedding_reads_witness :
  first_embedding (JObj [(js "embeddings", JArr [sample_vector; JNull])])
  = Return sample_vector.
Proof.
  exact (proj1 (proj2 first_embedding_reads)
               (JObj [(js "embeddings", JArr [sample_vector; JNull])])
               eq_refl eq_refl eq_refl).
Defined.

Lemma flatten_embedding_cases (e : jsval) :
  is_nullish e = false ->
  flatten_embedding e =
  Return (if isArray (element e 0)
          then if isArray (element (element e 0) 0)
               then element (element e 0) 0
               else element e 0
          else e).
Proof.
  intros Hnn. unfold flatten_embedding.
  rewrite get_index_not_nullish by assumption. cbn [and_then].
  destruct (isArray (element e 0)) eqn:Harr; cbn [and_then]; [|reflexivity].
  assert (Hnn0 : is_nullish (element e 0) = false).
  { destruct (element e 0); try discriminate; reflexivity. }
  rewrite get_index_not_nullish by assumption. cbn [and_then].
  destruct (isArray (element (element e 0) 0)); cbn [and_then]; reflexivity.
Qed.

Lemma flatten_embedding_nullish (e : jsval) :
  is_nullish e = true -> exists message, flatten_embedding e = Throw (TypeError message).
Proof. destruct e; try discriminate; intros _; eexists; reflexivity. Qed.

(** X11. The flattening raises a [TypeError] on [undefined] and [null] and
    on nothing else.  On any other value it strips at most two levels: it
    returns the value itself, its first element when that is an array, or
    the first element of that array when it is an array too.  A vector
    wrapped three times therefore stays wrapped once, and an empty array is
    left as it is. *)
Theorem flatten_embedding_strips_two_levels :
  (forall e : jsval,
      is_nullish e = true -> exists message, flatten_embedding e = Throw (TypeError message)) /\
  (forall e : jsval,
      is_nullish e = false ->
      flatten_embedding e =
      Return (if isArray (element e 0)
              then if isArray (element (element e 0) 0)
                   then element (element e 0) 0
                   else element e 0
              else e)) /\
  (forall v : jsval,
      flatten_embedding (JArr [JArr [JArr [v]]]) = Return (JArr [v])) /\
  flatten_embedding (JArr []) = Return (JArr []) /\
  flatten_embedding (JArr [JArr []]) = Return (JArr []).
Proof.
  split; [exact flatten_embedding_nullish|]. split; [exact flatten_embedding_cases|].
  repeat split.
Qed.

Lemma flatten_embedding_strips_two_levels_witness :
  flatten_embedding (JArr [JArr [JArr [JArr [JNum (1 # 2)]]]])
  = Return (JArr [JArr [JNum (1 # 2)]]).
Proof.
  exact (proj1 (proj2 flatten_embedding_strips_two_levels)
               (JArr [JArr [JArr [JArr [JNum (1 # 2)]]]]) eq_refl).
Defined.

Lemma map_raising_flatten_returns (embeddings : list jsval) :
  Forall (fun e => is_nullish e = false) embeddings ->
  exists flat,
    map_raising flatten_embedding embeddings = Return flat /\
    length flat = length embeddings.
Proof.
  induction 1 as [|e rest He Hrest (flat & Hflat & Hlen)]; simpl.
  - now exists [].
  - rewrite (flatten_embedding_cases _ He), Hflat. eexists. split; [reflexivity|].
    simpl. now rewrite Hlen.
Qed.

Lemma map_raising_length {A B} (f : A -> outcome B) (xs : list A) (ys : list B) :
  map_raising f xs = Return ys -> length ys = length xs.
Proof.
  revert ys. induction xs as [|x xs IH]; simpl; intros ys H.
  - inversion H. reflexivity.
  - destruct (f x); [|discriminate].
    destruct (map_raising f xs) as [ys'|]; [|discriminate].
    inversion H. simpl. now rewrite (IH ys').
Qed.

Lemma map_raising_flatten_throws (embeddings : list jsval) :
  Exists (fun e => is_nullish e = true) embeddings ->
  exists message, map_raising flatten_embedding embeddings = Throw (TypeError message).
Proof.
  induction 1 as [e rest He|e rest Hrest (message & Hthrow)]; simpl.
  - destruct (flatten_embedding_nullish _ He) as [message ->]. now exists message.
  - destruct (is_nullish e) eqn:He.
    + destruct (flatten_embedding_nullish _ He) as [message' ->]. now exists message'.
    + rewrite (flatten_embedding_cases _ He), Hthrow. now exists message.
Qed.

Lemma map_raising_nth {A B} (f : A -> outcome B) (xs : list A) (ys : list B) :
  map_raising f xs = Return ys ->
  forall i x, nth_error xs i = Some x ->
              exists y, nth_error ys i = Some y /\ f x = Return y.
Proof.
  revert ys. induction xs as [|x0 xs IH]; simpl; intros ys H i x Hx.
  - destruct i; discriminate.
  - destruct (f x0) as [y0|] eqn:Hf; [|discriminate].
    destruct (map_raising f xs) as [ys'|]; [|discriminate].
    inversion H; subst ys. destruct i as [|i]; simpl in *.
    + inversion Hx; subst. now exists y0.
    + now apply (IH ys').
Qed.

(** X12. Flattening the embeddings of a batch keeps their number and their
    order, and fails as a whole, with a [TypeError], exactly when one of
    them is [undefined] or [null]: as happens when the endpoint answers
    with an empty batch, which [generateEmbeddings] reads as [undefined]
    without complaint. *)
Theorem flattening_a_batch :
  forall embeddings : list jsval,
    (Forall (fun e => is_nullish e = false) embeddings <->
     exists flat, map_raising flatten_embedding embeddings = Return flat) /\
    (Exists (fun e => is_nullish e = true) embeddings <->
     exists message,
       map_raising flatten_embedding embeddings = Throw (TypeError message)) /\
    (forall flat,
        map_raising flatten_embedding embeddings = Return flat ->
        length flat = length embeddings /\
        forall i e,
          nth_error embeddings i = Some e ->
          exists v, nth_error flat i = Some v /\ flatten_embedding e = Return v) /\
    first_embedding (JArr []) = Return JUndefined.
Proof.
  intros embeddings.
  assert (Hdec : Forall (fun e => is_nullish e = false) embeddings \/
                 Exists (fun e => is_nullish e = true) embeddings).
  { induction embeddings as [|e rest [IH|IH]].
    - left. constructor.
    - destruct (is_nullish e) eqn:He; [right; now left|left; now constructor].
    - right. now right. }
  split; [|split; [|split; [|reflexivity]]].
  - split.
    + intros H. destruct (map_raising_flatten_returns H) as (flat & Hflat & _).
      now exists flat.
    + intros [flat Hflat]. destruct Hdec as [H|H]; [exact H|].
      destruct (map_raising_flatten_throws H) as [message Hthrow]. congruence.
  - split; [apply map_raising_flatten_throws|].
    intros [message Hthrow]. destruct Hdec as [H|H]; [|exact H].
    destruct (map_raising_flatten_returns H) as (flat & Hflat & _). congruence.
  - intros flat Hflat. split; [exact (map_raising_length _ _ Hflat)|].
    exact (map_raising_nth _ _ Hflat).
Qed.

(** ** The identifiers of the indexed lines *)

Lemma js_inj (a b : string) : js a = js b -> a = b.
Proof.
  unfold js. intros H.
  assert (Hl : list_ascii_of_string a = list_ascii_of_string b).
  { revert H. generalize (list_ascii_of_string a) (list_ascii_of_string b).
    induction l as [|x l IH]; intros [|y l']; simpl; intros H;
      try discriminate; [reflexivity|].
    inversion H as [[Hx Hl]]. f_equal; [|now apply IH].
    rewrite <- (ascii_N_embedding x), <- (ascii_N_embedding y). now rewrite Hx. }
  rewrite <- (string_of_list_ascii_of_string a), <- (string_of_list_ascii_of_string b).
  now rewrite Hl.
Qed.

Lemma to_uint_not_nil (n : N) : N.to_uint n <> Decimal.Nil.
Proof.
  destruct n as [|p]; [discriminate|]. apply DecimalPos.Unsigned.to_uint_nonnil.
Qed.

Lemma decimal_inj (n m : N) : decimal n = decimal m -> n = m.
Proof.
  unfold decimal. intros H. apply js_inj in H.
  apply DecimalN.Unsigned.to_uint_inj.
  assert (Hsome : Some (N.to_uint n) = Some (N.to_uint m)).
  { rewrite <- (NilZero.usu _ (to_uint_not_nil n)), <- (NilZero.usu _ (to_uint_not_nil m)).
    now rewrite H. }
  now inversion Hsome.
Qed.

Lemma mapi_from_index_only {A B} (g : nat -> B) (l : list A) (start : nat) :
  mapi_from (fun _ index => g index) start l = map g (seq start (length l)).
Proof.
  revert start. induction l as [|x l IH]; intros start; simpl; [reflexivity|].
  now rewrite IH.
Qed.

Lemma make_ids_seq (codeData : list LineRecord) :
  make_ids codeData
  = map (fun index => js "line_" ++ decimal (N.of_nat index)) (seq 0 (length codeData)).
Proof. unfold make_ids, mapi. apply mapi_from_index_only. Qed.

(** X13. The identifiers given to the indexed lines are positional: the
    line at position [i] gets [line_i]; they are pairwise distinct within a
    run; and they depend on nothing but the number of lines, so that two
    runs over as many lines produce the same identifiers whatever the
    lines hold. *)
Theorem make_ids_positional :
  forall codeData : list LineRecord,
    length (make_ids codeData) = length codeData /\
    (forall i, i < length codeData ->
               nth_error (make_ids codeData) i = Some (js "line_" ++ decimal (N.of_nat i))) /\
    NoDup (make_ids codeData) /\
    (forall other : list LineRecord,
        length other = length codeData -> make_ids other = make_ids codeData).
Proof.
  intros codeData. split; [apply length_mapi|]. split; [|split].
  - intros i Hi. rewrite make_ids_seq.
    rewrite nth_error_map, nth_error_seq.
    destruct (Nat.ltb_spec i (length codeData)); [reflexivity|lia].
  - rewrite make_ids_seq. apply Finite.Injective_map_NoDup; [|apply seq_NoDup].
    intros i j H. apply app_inv_head in H. apply decimal_inj in H.
    now apply Nat2N.inj.
  - intros other Hlen. now rewrite !make_ids_seq, Hlen.
Qed.

Lemma make_ids_positional_witness :
  make_ids [ {| content := js "x"; file := js "b.py"; lineNumber := 9 |};
             {| content := js "y"; file := js "b.py"; lineNumber := 12 |};
             {| content := js "z"; file := js "c.txt"; lineNumber := 1 |} ]
  = make_ids three_lines.
Proof.
  exact (proj2 (proj2 (proj2 (make_ids_positional three_lines))) _ eq_refl).
Defined.

(** ** What indexing asks of the store *)

Lemma add_calls_app (w : world) (cs : list jsstring) (call : chroma_call) :
  add_calls (with_store w cs (chroma_calls w ++ [call]))
  = add_calls w ++ (match call with Add _ _ _ _ _ => [call] | _ => [] end).
Proof.
  unfold add_calls. simpl. rewrite filter_app. simpl.
  destruct call; reflexivity.
Qed.

Lemma getOrCreateCollection_run (name : jsstring) (w : world) :
  getOrCreateCollection name w =
  match chroma_fault w (length (chroma_calls w)) with
  | Some e =>
      (Throw e,
       with_raised (with_store w (collections w)
                               (chroma_calls w ++ [GetOrCreateCollection name]))
                   (raised w ++ [e]))
  | None =>
      (Return name,
       with_store w
         (if has_collection name w then collections w else collections w ++ [name])
         (chroma_calls w ++ [GetOrCreateCollection name]))
  end.
Proof.
  unfold getOrCreateCollection, chroma_request.
  destruct (chroma_fault w (length (chroma_calls w))); [reflexivity|].
  unfold has_collection. simpl.
  destruct (existsb (jsstring_eqb name) (collections w)); reflexivity.
Qed.

Lemma readCodeFiles_same_files (directory : jsstring) (w w1 : world) :
  fs_readdir w1 = fs_readdir w -> fs_readFile w1 = fs_readFile w ->
  max_arguments w1 = max_arguments w ->
  result_of (readCodeFiles directory w1) = result_of (readCodeFiles directory w).
Proof.
  intros Hdir Hfile Hmax. unfold result_of. rewrite !readCodeFiles_run, Hdir, Hfile, Hmax.
  destruct (fs_readdir w directory) as [files|e]; [|reflexivity].
  destruct (first_read_error (fs_readFile w) (max_arguments w) directory files); reflexivity.
Qed.

Lemma readCodeFiles_frame (directory : jsstring) (w : world) :
  requests (snd (readCodeFiles directory w)) = requests w /\
  chroma_calls (snd (readCodeFiles directory w)) = chroma_calls w /\
  collections (snd (readCodeFiles directory w)) = collections w /\
  stdout (snd (readCodeFiles directory w)) = stdout w /\
  exists records, fst (readCodeFiles directory w) = Return records.
Proof.
  rewrite readCodeFiles_run.
  destruct (fs_readdir w directory) as [files|e];
    [destruct (first_read_error (fs_readFile w) (max_arguments w) directory files)|];
    simpl; repeat split; eexists; reflexivity.
Qed.

Lemma check_and_add_calls (collection : jsstring) (stored : N)
    (ids : list jsstring) (embeddings flatEmbeddings : list jsval)
    (texts : list jsstring) (metadatas : list Metadata) (w : world) :
  mismatched ids embeddings texts metadatas = false ->
  chroma_calls (snd (check_and_add collection stored ids embeddings flatEmbeddings
                                   texts metadatas w))
  = chroma_calls w ++ [Add collection ids flatEmbeddings metadatas texts] /\
  requests (snd (check_and_add collection stored ids embeddings flatEmbeddings
                               texts metadatas w))
  = requests w.
Proof.
  intros Hok. unfold check_and_add, bind, console_log, collection_add, chroma_request.
  rewrite Hok. cbn [ret fst snd]. simpl.
  destruct (chroma_fault w (length (chroma_calls w))); simpl; split; reflexivity.
Qed.

Lemma run_console_log_then {B} (pieces : list log_piece) (k : unit -> M B) (w : world) :
  bind (console_log pieces) k w = k tt (with_stdout w (stdout w ++ [pieces])).
Proof. reflexivity. Qed.

(** What [generateEmbeddings] returns depends on the world only through the
    endpoint and the number of requests it has had. *)
Lemma generateEmbeddings_loop_same_endpoint (texts : list jsstring) :
  forall (acc : list jsval) (w w1 : world),
    http_server w1 = http_server w ->
    length (requests w1) = length (requests w) ->
    fst (generateEmbeddings_loop texts acc w1) = fst (generateEmbeddings_loop texts acc w).
Proof.
  induction texts as [|text texts IH]; intros acc w w1 Hserver Hcount; [reflexivity|].
  cbn [generateEmbeddings_loop]. rewrite !run_bind, !request_embedding_exchange.
  rewrite Hserver, Hcount.
  destruct (exchange_result
              (http_server w (length (requests w)) (embedding_request text)));
    [|reflexivity].
  apply IH; simpl; [exact Hserver|]. rewrite !length_app. now rewrite Hcount.
Qed.

Lemma generateEmbeddings_same_endpoint (texts : list jsstring) (w w1 : world) :
  http_server w1 = http_server w ->
  length (requests w1) = length (requests w) ->
  result_of (generateEmbeddings texts w1) = result_of (generateEmbeddings texts w).
Proof.
  intros Hserver Hcount. unfold result_of. rewrite !generateEmbeddings_run.
  pose proof (generateEmbeddings_loop_same_endpoint texts [] w w1 Hserver Hcount) as H.
  destruct (generateEmbeddings_loop texts [] w1) as [[es1|e1] u1];
    destruct (generateEmbeddings_loop texts [] w) as [[es|e] u];
    cbn [fst] in *; congruence.
Qed.

Lemma readCodeFiles_endpoint (directory : jsstring) (w : world) :
  http_server (snd (readCodeFiles directory w)) = http_server w.
Proof.
  rewrite readCodeFiles_run.
  destruct (fs_readdir w directory) as [files|e];
    [destruct (first_read_error (fs_readFile w) (max_arguments w) directory files)|];
    reflexivity.
Qed.

(** The [try] block of [storeCodeInVectorDB] once the collection is there. *)
Lemma index_lines_calls (collection : jsstring) (w : world) :
  let rest :=
    (codeData <- readCodeFiles CODE_DIR ;;
     if (length_N codeData =? 0)%N then
       console_log [PStr (js "No code files found to index.")]
     else
       let texts := map content codeData in
       console_log [PStr (js " Texts:  "); PVal (JArr (map JStr texts))] ;;
       embeddings <- generateEmbeddings texts ;;
       flatEmbeddings <- lift (map_raising flatten_embedding embeddings) ;;
       console_log [PStr (js "Stored embedding length:");
                    PVal (optional_length (array_get flatEmbeddings 0))] ;;
       console_log [PStr (js "Stored embedding example:");
                    PVal (array_get flatEmbeddings 0)] ;;
       let ids := make_ids codeData in
       let metadatas := make_metadatas codeData in
       check_and_add collection (length_N codeData) ids embeddings flatEmbeddings
                     texts metadatas) in
  chroma_calls (snd (rest w)) = chroma_calls w \/
  exists codeData embeddings flatEmbeddings,
    result_of (readCodeFiles CODE_DIR w) = Return codeData /\
    codeData <> [] /\
    result_of (generateEmbeddings (map content codeData) w) = Return embeddings /\
    length embeddings = length codeData /\
    map_raising flatten_embedding embeddings = Return flatEmbeddings /\
    chroma_calls (snd (rest w))
    = chroma_calls w ++ [Add collection (make_ids codeData) flatEmbeddings
                             (make_metadatas codeData) (map content codeData)].
Proof.
  intros rest. subst rest. rewrite run_bind.
  destruct (readCodeFiles_frame CODE_DIR w) as (Hreq1 & Hcalls1 & _ & _ & [codeData Hrec]).
  pose proof (readCodeFiles_endpoint CODE_DIR w) as Hserver1.
  unfold result_of.
  destruct (readCodeFiles CODE_DIR w) as [o w1]. cbn [fst snd] in *. subst o.
  destruct (length_N codeData =? 0)%N eqn:Hempty; [left; exact Hcalls1|].
  cbv zeta. rewrite run_console_log_then, run_bind.
  pose proof (preserves_generateEmbeddings chroma_calls
                (fun _ _ => eq_refl) (fun _ _ => eq_refl) (fun _ _ => eq_refl)
                (map content codeData)
                (with_stdout w1
                   (stdout w1 ++ [[PStr (js " Texts:  ");
                                   PVal (JArr (map JStr (map content codeData)))]])))
    as Hcalls2.
  destruct (generateEmbeddings (map content codeData) _) as [[embeddings|e] w2] eqn:Hgen;
    cbn [snd] in Hcalls2; [|left; simpl in *; congruence].
  pose proof (generateEmbeddings_length _ _ Hgen) as Hlen. rewrite length_map in Hlen.
  rewrite run_bind.
  destruct (map_raising flatten_embedding embeddings) as [flat|e] eqn:Hflat;
    cbn [lift ret throw]; [|left; simpl in *; congruence].
  rewrite !run_console_log_then.
  assert (Hok : mismatched (make_ids codeData) embeddings (map content codeData)
                           (make_metadatas codeData) = false).
  { apply mismatched_false. unfold make_ids, make_metadatas.
    rewrite length_mapi, !length_map. repeat split; congruence. }
  right. exists codeData, embeddings, flat.
  split; [reflexivity|]. split.
  { intros ->. discriminate Hempty. }
  split.
  { pose proof (@generateEmbeddings_same_endpoint (map content codeData) w
                  (with_stdout w1
                     (stdout w1 ++ [[PStr (js " Texts:  ");
                                     PVal (JArr (map JStr (map content codeData)))]])))
      as Hsame.
    unfold result_of in Hsame. rewrite Hgen in Hsame. symmetry. apply Hsame.
    - simpl. congruence.
    - simpl. congruence. }
  split; [exact Hlen|]. split; [exact Hflat|].
  rewrite (proj1 (check_and_add_calls _ _ _ _ _ _ _ _ Hok)). simpl in *. congruence.
Qed.

(** X14. A run of [storeCodeInVectorDB] makes at most one [add], and only a
    well-formed one: on the collection [code_vectors], with the positional
    identifiers, the flattened embeddings, the metadata and the contents of
    the lines [readCodeFiles] returned, all four of the same length, which
    is not zero.  Every other call it makes on the store is the initial
    [getOrCreateCollection]. *)
Theorem storeCodeInVectorDB_adds_once :
  forall w : world,
    chroma_calls (world_after (storeCodeInVectorDB w))
    = chroma_calls w ++ [GetOrCreateCollection COLLECTION_NAME] \/
    exists codeData embeddings flatEmbeddings,
      result_of (readCodeFiles CODE_DIR w) = Return codeData /\
      codeData <> [] /\
      result_of (generateEmbeddings (map content codeData) w) = Return embeddings /\
      length embeddings = length codeData /\
      map_raising flatten_embedding embeddings = Return flatEmbeddings /\
      length flatEmbeddings = length codeData /\
      length (make_ids codeData) = length codeData /\
      length (make_metadatas codeData) = length codeData /\
      length (map content codeData) = length codeData /\
      chroma_calls (world_after (storeCodeInVectorDB w))
      = chroma_calls w
        ++ [GetOrCreateCollection COLLECTION_NAME;
            Add COLLECTION_NAME (make_ids codeData) flatEmbeddings
                (make_metadatas codeData) (map content codeData)].
Proof.
  intros w. unfold world_after, storeCodeInVectorDB.
  rewrite (after_try_catch (proj := chroma_calls)).
  2:{ intros e. unfold storeCodeInVectorDB_catch. apply preserves_console_error.
      reflexivity. }
  unfold storeCodeInVectorDB_try. rewrite run_bind, getOrCreateCollection_run.
  destruct (chroma_fault w (length (chroma_calls w))) as [e|]; [left; reflexivity|].
  set (w1 := with_store w _ _).
  destruct (index_lines_calls COLLECTION_NAME w1)
    as [Hsame|(codeData & embeddings & flat & Hrec & Hne & Hgen & Hlen & Hflat & Hcalls)].
  - left. cbv zeta in Hsame. rewrite Hsame. reflexivity.
  - right. exists codeData, embeddings, flat.
    rewrite (readCodeFiles_same_files CODE_DIR w w1 eq_refl eq_refl eq_refl) in Hrec.
    rewrite (@generateEmbeddings_same_endpoint (map content codeData) w w1
               eq_refl eq_refl) in Hgen.
    split; [exact Hrec|]. split; [exact Hne|]. split; [exact Hgen|]. split; [exact Hlen|].
    split; [exact Hflat|].
    split; [rewrite (map_raising_length _ _ Hflat); exact Hlen|].
    split; [apply length_mapi|]. split; [apply length_map|]. split; [apply length_map|].
    cbv zeta in Hcalls. rewrite Hcalls. subst w1. simpl. now rewrite <- app_assoc.
Qed.

Lemma jsstring_eqb_refl (a : jsstring) : jsstring_eqb a a = true.
Proof. unfold jsstring_eqb. destruct (list_eq_dec N.eq_dec a a); congruence. Qed.

Lemma has_collection_after_create (name : jsstring) (cs : list jsstring) :
  existsb (jsstring_eqb name)
          (if existsb (jsstring_eqb name) cs then cs else cs ++ [name]) = true.
Proof.
  destruct (existsb (jsstring_eqb name) cs) eqn:H; [exact H|].
  rewrite existsb_app. simpl. now rewrite jsstring_eqb_refl, orb_true_r.
Qed.

(** X15. With nothing to index, because the directory cannot be listed, a
    file cannot be read or no line is left, [storeCodeInVectorDB] still
    creates the collection, then says so on the standard output and stops:
    it sends no request to the embedding endpoint and makes no [add]. *)
Theorem storeCodeInVectorDB_without_lines :
  forall w : world,
    chroma_fault w (length (chroma_calls w)) = None ->
    result_of (readCodeFiles CODE_DIR w) = Return [] ->
    requests (world_after (storeCodeInVectorDB w)) = requests w /\
    chroma_calls (world_after (storeCodeInVectorDB w))
    = chroma_calls w ++ [GetOrCreateCollection COLLECTION_NAME] /\
    has_collection COLLECTION_NAME (world_after (storeCodeInVectorDB w)) = true /\
    stdout (world_after (storeCodeInVectorDB w))
    = stdout w ++ [[PStr (js "No code files found to index.")]].
Proof.
  intros w Hfault Hnone. unfold world_after.
  rewrite storeCodeInVectorDB_run. unfold storeCodeInVectorDB_try.
  rewrite run_bind, getOrCreateCollection_run, Hfault.
  set (w1 := with_store w _ _).
  rewrite <- (readCodeFiles_same_files CODE_DIR w w1 eq_refl eq_refl eq_refl) in Hnone.
  destruct (readCodeFiles_frame CODE_DIR w1) as (Hreq & Hcalls & Hcol & Hout & _).
  rewrite run_bind. unfold result_of in Hnone.
  destruct (readCodeFiles CODE_DIR w1) as [o w2]. cbn [fst snd] in *. subst o.
  simpl. unfold has_collection. simpl. rewrite Hreq, Hcalls, Hcol, Hout.
  subst w1. simpl. repeat split. apply has_collection_after_create.
Qed.

Lemma storeCodeInVectorDB_without_lines_witness :
  requests (world_after (storeCodeInVectorDB no_directory_world)) = [] /\
  chroma_calls (world_after (storeCodeInVectorDB no_directory_world))
  = [GetOrCreateCollection COLLECTION_NAME] /\
  has_collection COLLECTION_NAME (world_after (storeCodeInVectorDB no_directory_world))
  = true /\
  stdout (world_after (storeCodeInVectorDB no_directory_world))
  = [[PStr (js "No code files found to index.")]].
Proof.
  exact (storeCodeInVectorDB_without_lines no_directory_world eq_refl eq_refl).
Defined.

(** ** What a search asks of the outside *)

Lemma searchCode_response_calls (query : jsstring) (nResults : N) (w : world) :
  collections (snd (searchCode_response query nResults w)) = collections w /\
  (chroma_calls (snd (searchCode_response query nResults w)) = chroma_calls w \/
   chroma_calls (snd (searchCode_response query nResults w))
   = chroma_calls w ++ [GetCollection COLLECTION_NAME] \/
   exists flat,
     chroma_calls (snd (searchCode_response query nResults w))
     = chroma_calls w ++ [GetCollection COLLECTION_NAME;
                          Query COLLECTION_NAME flat nResults]).
Proof.
  unfold searchCode_response. rewrite run_bind.
  pose proof (preserves_generateEmbeddings collections
                (fun _ _ => eq_refl) (fun _ _ => eq_refl) (fun _ _ => eq_refl)
                [query] w) as Hcol.
  pose proof (preserves_generateEmbeddings chroma_calls
                (fun _ _ => eq_refl) (fun _ _ => eq_refl) (fun _ _ => eq_refl)
                [query] w) as Hcalls.
  destruct (generateEmbeddings [query] w) as [[arr|e] w1]; cbn [snd] in *;
    [|split; [exact Hcol|left; exact Hcalls]].
  rewrite run_bind.
  destruct (flatten_query_embedding arr) as [flat|e]; cbn [lift ret throw];
    [|split; [exact Hcol|left; exact Hcalls]].
  rewrite !run_console_log_then, run_bind.
  unfold getCollection, chroma_request, has_collection. simpl.
  destruct (chroma_fault w1 (length (chroma_calls w1))); simpl.
  { split; [exact Hcol|]. right. left. now rewrite Hcalls. }
  destruct (existsb (jsstring_eqb COLLECTION_NAME) (collections w1)); simpl.
  2:{ split; [exact Hcol|]. right. left. now rewrite Hcalls. }
  unfold collection_query, chroma_request. simpl.
  destruct (chroma_fault w1 _); simpl;
    (split; [exact Hcol|]); right; right; exists flat;
    rewrite Hcalls, <- app_assoc; reflexivity.
Qed.

(** X16. What a search does outside itself: it sends exactly one request
    to the embedding endpoint, the one for the query; on the store it only
    looks up the collection and, having found it, queries it once with the
    requested number of results; it never adds anything and never creates
    a collection. *)
Theorem searchCode_footprint :
  forall (query : jsstring) (nResults : option N) (w : world),
    requests (world_after (searchCode query nResults w))
    = requests w ++ [embedding_request query] /\
    collections (world_after (searchCode query nResults w)) = collections w /\
    add_calls (world_after (searchCode query nResults w)) = add_calls w /\
    (chroma_calls (world_after (searchCode query nResults w)) = chroma_calls w \/
     chroma_calls (world_after (searchCode query nResults w))
     = chroma_calls w ++ [GetCollection COLLECTION_NAME] \/
     exists flat,
       chroma_calls (world_after (searchCode query nResults w))
       = chroma_calls w
         ++ [GetCollection COLLECTION_NAME;
             Query COLLECTION_NAME flat
                   (match nResults with Some n => n | None => MAX_RESULTS end)]).
Proof.
  intros query nResults w. unfold world_after, searchCode.
  assert (Hcatch : forall X (proj : world -> X),
             (forall w e, proj (with_stderr w e) = proj w) ->
             forall e, preserves proj (searchCode_catch e)).
  { intros X proj Herr e. unfold searchCode_catch.
    apply preserves_bind; [apply preserves_console_error; exact Herr|].
    intros _. apply preserves_ret. }
  assert (Hformat : forall X (proj : world -> X),
             (forall w r, proj (with_raised w r) = proj w) ->
             forall results,
               preserves proj (matches <- lift (format_results results) ;; ret matches)).
  { intros X proj Hraised results.
    apply preserves_bind; [apply preserves_lift; exact Hraised|].
    intros ms. apply preserves_ret. }
  set (n := match nResults with Some n => n | None => MAX_RESULTS end).
  destruct (searchCode_response_calls query n w) as [Hcol Hcalls].
  assert (Hsame : chroma_calls (snd (try_catch (searchCode_try query n) searchCode_catch w))
                  = chroma_calls (snd (searchCode_response query n w))).
  { rewrite (after_try_catch (proj := chroma_calls))
      by (apply Hcatch; reflexivity).
    unfold searchCode_try.
    now rewrite (after_bind (proj := chroma_calls))
      by (apply Hformat; reflexivity). }
  split; [|split; [|split]].
  - rewrite (after_try_catch (proj := requests)) by (apply Hcatch; reflexivity).
    unfold searchCode_try.
    rewrite (after_bind (proj := requests)) by (apply Hformat; reflexivity).
    unfold searchCode_response. rewrite (after_bind (proj := requests)).
    + apply generateEmbeddings_single_request.
    + intros arr. apply preserves_bind; [apply preserves_lift; reflexivity|].
      intros flat. apply preserves_bind; [apply preserves_console_log; reflexivity|].
      intros _. apply preserves_bind; [apply preserves_console_log; reflexivity|].
      intros _. apply preserves_bind; [apply preserves_getCollection; reflexivity|].
      intros c. apply preserves_collection_query; reflexivity.
  - rewrite (after_try_catch (proj := collections)) by (apply Hcatch; reflexivity).
    unfold searchCode_try.
    rewrite (after_bind (proj := collections)) by (apply Hformat; reflexivity).
    exact Hcol.
  - unfold add_calls. rewrite Hsame.
    destruct Hcalls as [H|[H|[flat H]]]; rewrite H; [reflexivity| |];
      rewrite filter_app; simpl; apply app_nil_r.
  - rewrite Hsame. exact Hcalls.
Qed.

(** ** The vectors that reach the store *)

Lemma searchCode_calls (query : jsstring) (nResults : option N) (w : world) :
  chroma_calls (world_after (searchCode query nResults w))
  = chroma_calls
      (snd (searchCode_response query
              (match nResults with Some n => n | None => MAX_RESULTS end) w)).
Proof.
  unfold world_after, searchCode.
  rewrite (after_try_catch (proj := chroma_calls)).
  2:{ intros e. unfold searchCode_catch.
      apply preserves_bind; [apply preserves_console_error; reflexivity|].
      intros _. apply preserves_ret. }
  unfold searchCode_try. rewrite (after_bind (proj := chroma_calls)); [reflexivity|].
  intros results. apply preserves_bind; [apply preserves_lift; reflexivity|].
  intros ms. apply preserves_ret.
Qed.

Lemma searchCode_response_query (query : jsstring) (nResults : N) (w : world) :
  chroma_calls (snd (searchCode_response query nResults w)) = chroma_calls w \/
  chroma_calls (snd (searchCode_response query nResults w))
  = chroma_calls w ++ [GetCollection COLLECTION_NAME] \/
  exists embeddings queried,
    result_of (generateEmbeddings [query] w) = Return embeddings /\
    map_raising flatten_embedding embeddings = Return queried /\
    chroma_calls (snd (searchCode_response query nResults w))
    = chroma_calls w ++ [GetCollection COLLECTION_NAME;
                         Query COLLECTION_NAME queried nResults].
Proof.
  unfold searchCode_response, result_of. rewrite run_bind.
  pose proof (preserves_generateEmbeddings chroma_calls
                (fun _ _ => eq_refl) (fun _ _ => eq_refl) (fun _ _ => eq_refl)
                [query] w) as Hcalls.
  destruct (generateEmbeddings [query] w) as [[arr|e] w1] eqn:Hgen; cbn [fst snd] in *;
    [|left; exact Hcalls].
  pose proof (generateEmbeddings_length _ _ Hgen) as Hlen.
  destruct arr as [|e [|e' arr]]; try discriminate Hlen. clear Hlen.
  rewrite run_bind, flatten_query_embedding_spec. change (array_get [e] 0) with e.
  destruct (map_raising flatten_embedding [e]) as [queried|x] eqn:Hflat;
    cbn [lift ret throw]; [|left; exact Hcalls].
  rewrite !run_console_log_then, run_bind.
  unfold getCollection, chroma_request, has_collection. simpl.
  destruct (chroma_fault w1 (length (chroma_calls w1))); simpl.
  { right. left. now rewrite Hcalls. }
  destruct (existsb (jsstring_eqb COLLECTION_NAME) (collections w1)); simpl.
  2:{ right. left. now rewrite Hcalls. }
  unfold collection_query, chroma_request. simpl.
  destruct (chroma_fault w1 _); simpl;
    right; right; exists [e], queried;
    (split; [reflexivity|]); (split; [exact Hflat|]);
    rewrite Hcalls, <- app_assoc; reflexivity.
Qed.

(** C1. The vectors [storeCodeInVectorDB] hands to [add] and the vector
    [searchCode] hands to [query] are flattened by the same function.
    Whenever an [add] is made, its embeddings are [flatten_embedding] mapped
    over what [generateEmbeddings] returned for the lines; whenever a
    [query] is made, its embedding is [flatten_embedding] mapped over what
    [generateEmbeddings] returned for the query: the expression of lines
    142-148 is the one of lines 97-99 on the one returned value.  So an
    embedding value that is stored and the same value used as a query reach
    the store as the same vector; and a flat numeric vector, bare or
    wrapped in one or two arrays, reaches it as that vector on both
    sides. *)
Theorem flatten_query_is_flatten_stored :
  (forall w : world,
      chroma_calls (world_after (storeCodeInVectorDB w))
      = chroma_calls w ++ [GetOrCreateCollection COLLECTION_NAME] \/
      exists codeData embeddings stored,
        result_of (readCodeFiles CODE_DIR w) = Return codeData /\
        result_of (generateEmbeddings (map content codeData) w) = Return embeddings /\
        map_raising flatten_embedding embeddings = Return stored /\
        chroma_calls (world_after (storeCodeInVectorDB w))
        = chroma_calls w
          ++ [GetOrCreateCollection COLLECTION_NAME;
              Add COLLECTION_NAME (make_ids codeData) stored
                  (make_metadatas codeData) (map content codeData)]) /\
  (forall (query : jsstring) (nResults : option N) (w : world),
      chroma_calls (world_after (searchCode query nResults w)) = chroma_calls w \/
      chroma_calls (world_after (searchCode query nResults w))
      = chroma_calls w ++ [GetCollection COLLECTION_NAME] \/
      exists embeddings queried,
        result_of (generateEmbeddings [query] w) = Return embeddings /\
        map_raising flatten_embedding embeddings = Return queried /\
        chroma_calls (world_after (searchCode query nResults w))
        = chroma_calls w
          ++ [GetCollection COLLECTION_NAME;
              Query COLLECTION_NAME queried
                    (match nResults with Some n => n | None => MAX_RESULTS end)]) /\
  (forall queryEmbeddingArr : list jsval,
      flatten_query_embedding queryEmbeddingArr
      = map_raising flatten_embedding [array_get queryEmbeddingArr 0]) /\
  (forall e : jsval,
      flatten_query_embedding [e] = let? flat := flatten_embedding e in Return [flat]) /\
  (forall (embeddings stored : list jsval) (i : nat) (e : jsval),
      map_raising flatten_embedding embeddings = Return stored ->
      nth_error embeddings i = Some e ->
      exists v, nth_error stored i = Some v /\
                map_raising flatten_embedding [e] = Return [v] /\
                flatten_query_embedding [e] = Return [v]) /\
  (forall v : list Q,
      let flat := JArr (map JNum v) in
      map_raising flatten_embedding [flat; JArr [flat]; JArr [JArr [flat]]]
      = Return [flat; flat; flat] /\
      flatten_query_embedding [flat] = Return [flat] /\
      flatten_query_embedding [JArr [flat]] = Return [flat] /\
      flatten_query_embedding [JArr [JArr [flat]]] = Return [flat]).
Proof.
  split; [|split; [|split; [|split; [|split]]]].
  - intros w. unfold world_after, storeCodeInVectorDB.
    rewrite (after_try_catch (proj := chroma_calls)).
    2:{ intros e. unfold storeCodeInVectorDB_catch. apply preserves_console_error.
        reflexivity. }
    unfold storeCodeInVectorDB_try. rewrite run_bind, getOrCreateCollection_run.
    destruct (chroma_fault w (length (chroma_calls w))) as [e|]; [left; reflexivity|].
    set (w1 := with_store w _ _).
    destruct (index_lines_calls COLLECTION_NAME w1)
      as [Hsame|(codeData & embeddings & flat & Hrec & _ & Hgen & _ & Hflat & Hcalls)].
    + left. cbv zeta in Hsame. rewrite Hsame. reflexivity.
    + right. exists codeData, embeddings, flat.
      rewrite (readCodeFiles_same_files CODE_DIR w w1 eq_refl eq_refl eq_refl) in Hrec.
      rewrite (@generateEmbeddings_same_endpoint (map content codeData) w w1
                 eq_refl eq_refl) in Hgen.
      split; [exact Hrec|]. split; [exact Hgen|]. split; [exact Hflat|].
      cbv zeta in Hcalls. rewrite Hcalls. subst w1. simpl. now rewrite <- app_assoc.
  - intros query nResults w. rewrite searchCode_calls.
    apply searchCode_response_query.
  - exact flatten_query_embedding_spec.
  - intros e. rewrite flatten_query_embedding_spec. change (array_get [e] 0) with e.
    simpl. destruct (flatten_embedding e); reflexivity.
  - intros embeddings stored i e Hstored He.
    destruct (map_raising_nth _ _ Hstored _ He) as (v & Hv & Hflat).
    exists v. split; [exact Hv|].
    rewrite flatten_query_embedding_spec. change (array_get [e] 0) with e.
    simpl. rewrite Hflat. split; reflexivity.
  - intros v flat. subst flat. rewrite !flatten_query_embedding_spec.
    unfold array_get. cbn [nth map_raising].
    rewrite flatten_embedding_flat, flatten_embedding_nested_once,
      flatten_embedding_nested_twice.
    repeat split.
Qed.

(** On [nested_world], where the endpoint wraps each vector in three
    arrays, the vectors of the [add] and the vector of the [query] are the
    bare vector. *)
Example nested_world_vectors :
  chroma_calls (world_after (storeCodeInVectorDB nested_world))
  = [GetOrCreateCollection COLLECTION_NAME;
     Add COLLECTION_NAME [js "line_0"; js "line_1"; js "line_2"]
         [sample_vector; sample_vector; sample_vector]
         [ {| meta_file := js "a.js"; meta_lineNumber := 1 |};
           {| meta_file := js "a.js"; meta_lineNumber := 3 |};
           {| meta_file := js "a.js"; meta_lineNumber := 4 |} ]
         [js "function factorial(n) {"; js "return 1;"; js "}"]] /\
  chroma_calls (world_after (searchCode DEMO_QUERY None
                               (with_store nested_world [COLLECTION_NAME] [])))
  = [GetCollection COLLECTION_NAME; Query COLLECTION_NAME [sample_vector] 5].
Proof. split; reflexivity. Qed.

(** ** Which responses can be formatted *)

Lemma make_match_returns (results metadata : jsval) (index : nat) (m : Match) :
  make_match results metadata index = Return m ->
  is_nullish metadata = false /\
  exists documents0 distances0,
    (let? d := get_prop results (js "documents") in get_index d 0) = Return documents0 /\
    (let? d := get_prop results (js "distances") in get_index d 0) = Return distances0 /\
    is_nullish documents0 = false /\ is_nullish distances0 = false.
Proof.
  unfold make_match. intros H.
  destruct (is_nullish metadata) eqn:Hm.
  { destruct metadata; discriminate. }
  split; [reflexivity|].
  rewrite !get_prop_not_nullish in H by assumption. cbn [and_then] in H.
  destruct (get_prop results (js "documents")) as [d|]; [|discriminate].
  cbn [and_then] in *.
  destruct (get_index d 0) as [d0|]; [|discriminate]. cbn [and_then] in H.
  destruct (is_nullish d0) eqn:Hd0.
  { destruct d0; discriminate. }
  rewrite get_index_not_nullish in H by assumption. cbn [and_then] in H.
  destruct (get_prop results (js "distances")) as [s|]; [|discriminate].
  cbn [and_then] in *.
  destruct (get_index s 0) as [s0|]; [|discriminate]. cbn [and_then] in H.
  destruct (is_nullish s0) eqn:Hs0.
  { destruct s0; discriminate. }
  exists d0, s0. repeat split; assumption.
Qed.

Lemma mapi_raising_make_match_returns (results : jsval) (metadatas0 : list jsval) :
  forall (start : nat) (matches : list Match),
    mapi_raising_from (make_match results) start metadatas0 = Return matches ->
    Forall (fun m => is_nullish m = false) metadatas0 /\
    (metadatas0 = [] \/
     exists documents0 distances0,
       (let? d := get_prop results (js "documents") in get_index d 0) = Return documents0 /\
       (let? d := get_prop results (js "distances") in get_index d 0) = Return distances0 /\
       is_nullish documents0 = false /\ is_nullish distances0 = false).
Proof.
  induction metadatas0 as [|metadata rest IH]; intros start matches H.
  - split; [constructor|now left].
  - cbn [mapi_raising_from] in H.
    destruct (make_match results metadata start) as [m|] eqn:Hm; [|discriminate].
    cbn [and_then] in H.
    destruct (mapi_raising_from (make_match results) (S start) rest) as [ms|] eqn:Hrest;
      [|discriminate].
    destruct (make_match_returns _ _ _ Hm) as [Hnn Hshape].
    destruct (IH _ _ Hrest) as [Hall _].
    split; [now constructor|right; exact Hshape].
Qed.

(** X17. Which responses of the store [searchCode] can format: exactly
    those whose [metadatas[0]] is an array with no [null] or [undefined]
    entry and, unless that array is empty, whose [documents[0]] and
    [distances[0]] exist.  On any other response, for instance one with a
    single [null] metadata entry, the formatting raises and the search
    returns nothing, whatever else the response holds. *)
Theorem format_results_accepts :
  (forall results : jsval,
      (exists matches, format_results results = Return matches) <->
      (exists metadatas0,
          (let? m := get_prop results (js "metadatas") in get_index m 0)
          = Return (JArr metadatas0) /\
          Forall (fun m => is_nullish m = false) metadatas0 /\
          (metadatas0 = [] \/
           exists documents0 distances0,
             (let? d := get_prop results (js "documents") in get_index d 0)
             = Return documents0 /\
             (let? d := get_prop results (js "distances") in get_index d 0)
             = Return distances0 /\
             is_nullish documents0 = false /\ is_nullish distances0 = false))) /\
  (forall (query : jsstring) (nResults : option N) (w w1 : world) (results : jsval) (e : exn),
      searchCode_response query (match nResults with Some n => n | None => MAX_RESULTS end) w
      = (Return results, w1) ->
      format_results results = Throw e ->
      result_of (searchCode query nResults w) = Return []).
Proof.
  split.
  - intros results. split.
    + intros [matches H]. unfold format_results in H.
      destruct (get_prop results (js "metadatas")) as [m|]; [|discriminate].
      cbn [and_then] in *.
      destruct (get_index m 0) as [m0|]; [|discriminate]. cbn [and_then] in H.
      destruct m0; try discriminate.
      exists elems. split; [reflexivity|].
      exact (mapi_raising_make_match_returns _ _ _ H).
    + intros (metadatas0 & Hmeta & Hnn & [->|(d0 & s0 & Hd & Hs & Hd0 & Hs0)]).
      * exists []. unfold format_results.
        destruct (get_prop results (js "metadatas")) as [m|]; [|discriminate].
        cbn [and_then] in *. rewrite Hmeta. reflexivity.
      * exists (mapi (match_at d0 s0) metadatas0).
        apply format_results_zips. repeat split; assumption.
  - intros query nResults w w1 results e Hresp Hthrow.
    unfold result_of. rewrite searchCode_run. unfold searchCode_try.
    rewrite run_bind, Hresp, run_bind, Hthrow. reflexivity.
Qed.

Lemma format_results_accepts_witness :
  result_of (searchCode DEMO_QUERY None null_metadata_world) = Return [].
Proof.
  exact (proj2 format_results_accepts DEMO_QUERY None null_metadata_world
               (snd (searchCode_response DEMO_QUERY MAX_RESULTS null_metadata_world))
               null_metadata_answer
               (TypeError (js "Cannot read properties of null"))
               eq_refl eq_refl).
Defined.

(** ** What the demonstration prints *)

Lemma show_match_number (m : Match) (x : Q) :
  distance_number m = Some x -> show_match m = console_log (match_line m x).
Proof.
  unfold distance_number, show_match, match_line.
  destruct (match_distance m); try discriminate. intros H. inversion H. reflexivity.
Qed.

Lemma show_match_not_number (m : Match) :
  distance_number m = None -> exists message, show_match m = throw (TypeError message).
Proof.
  unfold distance_number, show_match.
  destruct (match_distance m); try discriminate; intros _; eexists; reflexivity.
Qed.

Lemma forEach_show_match (matches : list Match) :
  forall w : world,
    stdout (snd (forEach matches show_match w)) = stdout w ++ shown_lines matches /\
    (Forall (fun m => distance_number m <> None) matches ->
     fst (forEach matches show_match w) = Return tt) /\
    (Exists (fun m => distance_number m = None) matches ->
     exists message, fst (forEach matches show_match w) = Throw (TypeError message)).
Proof.
  induction matches as [|m rest IH]; intros w.
  - simpl. split; [now rewrite app_nil_r|]. split; [reflexivity|].
    intros H. inversion H.
  - cbn [forEach shown_lines].
    destruct (distance_number m) as [x|] eqn:Hd.
    + rewrite (show_match_number _ Hd), run_console_log_then.
      destruct (IH (with_stdout w (stdout w ++ [match_line m x])))
        as (Hout & Hall & Hsome).
      split; [|split].
      * rewrite Hout. simpl. now rewrite <- app_assoc.
      * intros H. inversion H; subst. now apply Hall.
      * intros H. inversion H as [? ? Hm|? ? Hrest]; subst; [congruence|].
        now apply Hsome.
    + destruct (show_match_not_number _ Hd) as [message ->].
      rewrite run_bind. cbn [throw fst snd]. simpl.
      split; [now rewrite app_nil_r|].
      split; [|intros _; now exists message].
      intros H. inversion H as [|? ? Hm]; subst. congruence.
Qed.

(** X18. The display prints one line per match, in order, as long as the
    distances are numbers, and stops at the first match whose distance is
    not one (for instance because the store returned fewer distances than
    metadata entries): the matches before it have been printed, a
    [TypeError] is raised and the later matches are not printed. *)
Theorem display_stops_at_missing_distance :
  forall (matches : list Match) (w : world),
    stdout (world_after (forEach matches show_match w)) = stdout w ++ shown_lines matches /\
    (Forall (fun m => distance_number m <> None) matches ->
     result_of (forEach matches show_match w) = Return tt /\
     length (shown_lines matches) = length matches) /\
    (Exists (fun m => distance_number m = None) matches ->
     (exists message, result_of (forEach matches show_match w) = Throw (TypeError message)) /\
     length (shown_lines matches) < length matches).
Proof.
  intros matches w. destruct (forEach_show_match matches w) as (Hout & Hall & Hsome).
  split; [exact Hout|]. split.
  - intros H. split; [now apply Hall|].
    clear -H. induction H as [|m rest Hm _ IH]; [reflexivity|]. simpl.
    destruct (distance_number m); [simpl; now rewrite IH|contradiction].
  - intros H. split; [now apply Hsome|].
    clear -H. induction H as [m rest Hm|m rest _ IH]; simpl.
    + rewrite Hm. simpl. lia.
    + destruct (distance_number m); simpl; lia.
Qed.

Lemma forEach_show_match_result (matches : list Match) (w : world) :
  fst (forEach matches show_match w) = Return tt \/
  exists message, fst (forEach matches show_match w) = Throw (TypeError message).
Proof.
  destruct (forEach_show_match matches w) as (_ & Hall & Hsome).
  assert (Hdec : Forall (fun m => distance_number m <> None) matches \/
                 Exists (fun m => distance_number m = None) matches).
  { clear. induction matches as [|m rest [IH|IH]].
    - left. constructor.
    - destruct (distance_number m) eqn:Hm.
      + left. constructor; [congruence|exact IH].
      + right. now left.
    - right. now right. }
  destruct Hdec as [H|H]; [left; now apply Hall|right; now apply Hsome].
Qed.

Lemma demonstration_run (w : world) :
  demonstration w =
  match searchCode DEMO_QUERY None (with_stdout w (stdout w ++ [searching_line])) with
  | (Return matches, w2) =>
      if (length_N matches =? 0)%N then
        (Return tt, with_stdout w2 (stdout w2 ++ [[PStr (js "No matches found.")]]))
      else
        forEach matches show_match
                (with_stdout w2 (stdout w2 ++ [[PStr ([10%N] ++ js "Search Results:")]]))
  | (Throw e, w2) => (Throw e, w2)
  end.
Proof.
  unfold demonstration. cbv zeta. rewrite run_console_log_then, run_bind.
  fold searching_line.
  destruct (searchCode DEMO_QUERY None _) as [[matches|e] w2]; [|reflexivity].
  destruct (length_N matches =? 0)%N; [reflexivity|].
  now rewrite run_console_log_then.
Qed.

Lemma main_run (w : world) :
  main w =
  demonstration
    (snd (storeCodeInVectorDB
            (with_stdout w (stdout w ++ [[PStr (js "Indexing code files...")]])))).
Proof.
  unfold main. rewrite run_console_log_then, run_bind, storeCodeInVectorDB_run.
  destruct (storeCodeInVectorDB_try _) as [[[]|e] w1]; reflexivity.
Qed.

(** X19. The only error [main] can let through is a [TypeError] raised
    while printing a match whose distance is not a number: indexing and
    searching never throw.  The handler attached to [main] then writes it
    to the error stream and the run ends normally. *)
Theorem main_throws_only_from_display :
  forall (w : world) (e : exn),
    result_of (main w) = Throw e ->
    (exists message, e = TypeError message) /\
    result_of (run_main w) = Return tt /\
    stderr (world_after (run_main w))
    = stderr (world_after (main w)) ++ [[PStr (js "Main function error:"); PErr e]].
Proof.
  intros w e Hthrow. unfold result_of, world_after in *. split; [|split].
  - rewrite main_run, demonstration_run, searchCode_run in Hthrow.
    destruct (searchCode_try _ _ _) as [[matches|e'] w2].
    + destruct (length_N matches =? 0)%N; [discriminate|].
      destruct (forEach_show_match_result matches
                  (with_stdout w2
                     (stdout w2 ++ [[PStr ([10%N] ++ js "Search Results:")]])))
        as [H|[message H]]; rewrite H in Hthrow; [discriminate|].
      inversion Hthrow. now exists message.
    + simpl in Hthrow. discriminate.
  - apply run_main_returns.
  - unfold run_main, try_catch.
    destruct (main w) as [[[]|e'] w1]; cbn [fst snd] in *; [discriminate|].
    inversion Hthrow; subst e'. reflexivity.
Qed.

Lemma main_throws_only_from_display_witness :
  result_of (main short_distances_world)
  = Throw (TypeError (js "Cannot read properties of undefined")) /\
  result_of (run_main short_distances_world) = Return tt.
Proof.
  split; [reflexivity|].
  exact (proj1 (proj2 (main_throws_only_from_display short_distances_world
                         (e := TypeError (js "Cannot read properties of undefined"))
                         eq_refl))).
Defined.

(** X20. An empty result and a failed search are displayed alike: whenever
    the search gives no match, and it gives none as soon as anything fails
    in it, the demonstration prints [No matches found.] and ends normally;
    in the failed case the only trace of the failure is on the error
    stream. *)
Theorem failed_search_is_shown_as_no_match :
  (forall w : world,
      result_of (searchCode DEMO_QUERY None
                            (with_stdout w (stdout w ++ [searching_line])))
      = Return [] ->
      result_of (demonstration w) = Return tt /\
      stdout (world_after (demonstration w))
      = stdout (world_after (searchCode DEMO_QUERY None
                                        (with_stdout w (stdout w ++ [searching_line]))))
        ++ [[PStr (js "No matches found.")]]) /\
  (forall (w w1 : world) (e : exn),
      searchCode_try DEMO_QUERY MAX_RESULTS (with_stdout w (stdout w ++ [searching_line]))
      = (Throw e, w1) ->
      result_of (demonstration w) = Return tt /\
      stdout (world_after (demonstration w))
      = stdout w1 ++ [[PStr (js "No matches found.")]] /\
      stderr (world_after (demonstration w))
      = stderr w1 ++ [[PStr (js "Error searching code:"); PErr e]]).
Proof.
  split.
  - intros w Hnone. unfold result_of, world_after in *. rewrite demonstration_run.
    destruct (searchCode DEMO_QUERY None _) as [[matches|e] w2]; cbn [fst snd] in *;
      [|discriminate].
    inversion Hnone; subst matches. simpl. split; reflexivity.
  - intros w w1 e Hthrow. unfold result_of, world_after.
    rewrite demonstration_run, searchCode_run. cbv beta iota. rewrite Hthrow.
    simpl. repeat split.
Qed.

Lemma failed_search_is_shown_as_no_match_witness :
  result_of (demonstration sample_world) = Return tt /\
  stdout (world_after (demonstration sample_world))
  = [searching_line;
     [PStr (js "Query embedding length:"); PVal (num_of_N 2)];
     [PStr (js "Query embedding example:"); PVal sample_vector];
     [PStr (js "No matches found.")]] /\
  stderr (world_after (demonstration sample_world))
  = [[PStr (js "Error searching code:");
      PErr (External (js "collection does not exist"))]].
Proof.
  exact (proj2 failed_search_is_shown_as_no_match sample_world
               (snd (searchCode_try DEMO_QUERY MAX_RESULTS
                       (with_stdout sample_world
                          (stdout sample_world ++ [searching_line]))))
               (External (js "collection does not exist")) eq_refl).
Defined.

(** ** The sample files *)





















(** ** A whole run *)

Lemma generateEmbeddings_requests (texts : list jsstring) (w : world) :
  exists n,
    n <= length texts /\
    requests (snd (generateEmbeddings texts w))
    = requests w ++ map embedding_request (firstn n texts).
Proof.
  rewrite generateEmbeddings_run.
  destruct (generateEmbeddings_loop_run texts [] w) as (n & Hn & Hreq & _).
  exists n. split; [exact Hn|].
  destruct (generateEmbeddings_loop texts [] w) as [[embeddings|e] w1]; exact Hreq.
Qed.

Lemma preserves_requests_check_and_add (collection : jsstring) (stored : N)
    (ids : list jsstring) (embeddings flatEmbeddings : list jsval)
    (texts : list jsstring) (metadatas : list Metadata) :
  preserves requests
    (check_and_add collection stored ids embeddings flatEmbeddings texts metadatas).
Proof.
  unfold check_and_add.
  apply preserves_bind; [apply preserves_console_log; reflexivity|intros _].
  apply preserves_bind.
  { destruct (mismatched ids embeddings texts metadatas);
      [apply preserves_throw; reflexivity|apply preserves_ret]. }
  intros _. apply preserves_bind; [|intros _; apply preserves_console_log; reflexivity].
  unfold collection_add. apply preserves_chroma_request; try reflexivity.
  apply preserves_ret.
Qed.

Lemma storeCodeInVectorDB_requests (w : world) :
  exists codeData n,
    result_of (readCodeFiles CODE_DIR w) = Return codeData /\
    n <= length codeData /\
    requests (snd (storeCodeInVectorDB w))
    = requests w ++ map embedding_request (firstn n (map content codeData)).
Proof.
  destruct (readCodeFiles_frame CODE_DIR w) as (_ & _ & _ & _ & [codeData Hrec]).
  exists codeData.
  unfold storeCodeInVectorDB.
  rewrite (after_try_catch (proj := requests)).
  2:{ intros e. unfold storeCodeInVectorDB_catch. apply preserves_console_error.
      reflexivity. }
  unfold storeCodeInVectorDB_try. rewrite run_bind, getOrCreateCollection_run.
  destruct (chroma_fault w (length (chroma_calls w))) as [e|].
  { exists 0. split; [exact Hrec|]. split; [lia|]. simpl. now rewrite app_nil_r. }
  set (w1 := with_store w _ _).
  assert (Hrec1 : fst (readCodeFiles CODE_DIR w1) = Return codeData).
  { pose proof (readCodeFiles_same_files CODE_DIR w w1 eq_refl eq_refl eq_refl) as H.
    unfold result_of in H. now rewrite H. }
  destruct (readCodeFiles_frame CODE_DIR w1) as (Hreq1 & _).
  rewrite run_bind.
  destruct (readCodeFiles CODE_DIR w1) as [o w2]. cbn [fst snd] in *. subst o.
  destruct (length_N codeData =? 0)%N.
  { exists 0. split; [exact Hrec|]. split; [lia|]. simpl.
    rewrite Hreq1. subst w1. simpl. now rewrite app_nil_r. }
  cbv zeta. rewrite run_console_log_then.
  rewrite (after_bind (proj := requests)).
  2:{ intros embeddings.
      apply preserves_bind; [apply preserves_lift; reflexivity|intros flat].
      apply preserves_bind; [apply preserves_console_log; reflexivity|intros _].
      apply preserves_bind; [apply preserves_console_log; reflexivity|intros _].
      apply preserves_requests_check_and_add. }
  destruct (generateEmbeddings_requests (map content codeData)
              (with_stdout w2
                 (stdout w2 ++ [[PStr (js " Texts:  ");
                                 PVal (JArr (map JStr (map content codeData)))]])))
    as (n & Hn & Hreq).
  exists n. split; [exact Hrec|]. split; [now rewrite length_map in Hn|].
  rewrite Hreq. simpl. rewrite Hreq1. subst w1. reflexivity.
Qed.

(** X24. The requests of a whole run: the run sends to the embedding
    endpoint one request for each line of a prefix of the lines
    [readCodeFiles] returns, in order, and then exactly one request for the
    demonstration query; so never more than one per line plus one, and the
    query is sent whatever happened to the indexing. *)
Theorem run_main_requests :
  forall w : world,
  exists codeData n,
    result_of (readCodeFiles CODE_DIR w) = Return codeData /\
    n <= length codeData /\
    requests (world_after (run_main w))
    = requests w
      ++ map embedding_request (firstn n (map content codeData))
      ++ [embedding_request DEMO_QUERY] /\
    length (requests (world_after (run_main w))) <= length (requests w) + length codeData + 1.
Proof.
  intros w. unfold world_after, run_main.
  rewrite (after_try_catch (proj := requests)).
  2:{ intros e. apply preserves_console_error. reflexivity. }
  rewrite main_run, demonstration_requests.
  destruct (storeCodeInVectorDB_requests
              (with_stdout w (stdout w ++ [[PStr (js "Indexing code files...")]])))
    as (codeData & n & Hrec & Hn & Hreq).
  exists codeData, n.
  rewrite (readCodeFiles_same_files CODE_DIR w
             (with_stdout w (stdout w ++ [[PStr (js "Indexing code files...")]]))
             eq_refl eq_refl eq_refl) in Hrec.
  split; [exact Hrec|]. split; [exact Hn|].
  rewrite Hreq. simpl. split; [now rewrite <- app_assoc|].
  rewrite !length_app, length_map, length_firstn, length_map. simpl. lia.
Qed.

(** X25. When the store cannot be reached, indexing stops at its first
    step: [storeCodeInVectorDB] reports the error of the store, returns
    normally, and has sent nothing to the embedding endpoint nor written
    anything to the standard output. *)
Theorem storeCodeInVectorDB_without_store :
  forall (w : world) (e : exn),
    chroma_fault w (length (chroma_calls w)) = Some e ->
    result_of (storeCodeInVectorDB w) = Return tt /\
    requests (world_after (storeCodeInVectorDB w)) = requests w /\
    stdout (world_after (storeCodeInVectorDB w)) = stdout w /\
    chroma_calls (world_after (storeCodeInVectorDB w))
    = chroma_calls w ++ [GetOrCreateCollection COLLECTION_NAME] /\
    stderr (world_after (storeCodeInVectorDB w))
    = stderr w ++ [[PStr (js "Error storing code in vector DB:"); PErr e]].
Proof.
  intros w e Hfault. unfold result_of, world_after.
  rewrite storeCodeInVectorDB_run. unfold storeCodeInVectorDB_try.
  rewrite run_bind, getOrCreateCollection_run, Hfault. simpl. repeat split.
Qed.

Lemma storeCodeInVectorDB_without_store_witness :
  result_of (storeCodeInVectorDB no_store_world) = Return tt /\
  requests (world_after (storeCodeInVectorDB no_store_world)) = [] /\
  stdout (world_after (storeCodeInVectorDB no_store_world)) = [] /\
  chroma_calls (world_after (storeCodeInVectorDB no_store_world))
  = [GetOrCreateCollection COLLECTION_NAME] /\
  stderr (world_after (storeCodeInVectorDB no_store_world))
  = [[PStr (js "Error storing code in vector DB:");
      PErr (External (js "ECONNREFUSED"))]].
Proof.
  exact (storeCodeInVectorDB_without_store no_store_world eq_refl).
Defined.
